(** * Scene selection and acquisition pipeline of the satellite-imagery notebook

    A shallow embedding of the notebook that downloads one satellite crop per
    sample: [get_bounding_box], [get_date_range], [select_best_image], the
    acquisition loop of the "Get Data" cell and the black-image scan and
    removal cells.

    Conventions of the embedding.
    - Latitudes, longitudes and distances are rationals ([Q]): the code only
      compares them with [<] and [>] and hands them to library calls.
    - Calendar dates are day numbers ([Z]); a [Timedelta] between two dates is
      a number of days.
    - Python exceptions are values of [exn]; code that may raise returns a
      [result].
    - The geodesic library, the catalog and the raster readers are external:
      they are fields of the records [geodesy] and [world]. *)

From Stdlib Require Import ZArith QArith String Ascii List Lia.
From stdpp Require Import base gmap strings list sorting.

Local Close Scope Q_scope.
Local Open Scope Z_scope.

(** ** Exceptions and results *)

Inductive exn : Type :=
  | AttributeError
  | NameError
  | IndexError
  | FileNotFoundError
  | NoImageFound          (* Exception('No image found') *)
  | ImageAllBlack         (* Exception("Image is all black") *)
  | LibraryError (msg : string).   (* raised inside an external library call *)

Inductive result (A : Type) : Type :=
  | Return (a : A)
  | Raise (e : exn).
Arguments Return {A} a.
Arguments Raise {A} e.

Definition rbind {A B : Type} (r : result A) (k : A → result B) : result B :=
  match r with
  | Return a => k a
  | Raise e => Raise e
  end.

Notation "x ←r c1 ; c2" := (rbind c1 (λ x, c2))
  (at level 100, c1 at next level, right associativity, only parsing).

Definition raises {A : Type} (r : result A) : Prop := ∃ e, r = Raise e.

(** ** Strings: [str.lower] and substring test *)

Definition lower_ascii (c : ascii) : ascii :=
  let n := nat_of_ascii c in
  if ((65 <=? n) && (n <=? 90))%nat then ascii_of_nat (n + 32) else c.

Fixpoint lower (s : string) : string :=
  match s with
  | EmptyString => EmptyString
  | String c s' => String (lower_ascii c) (lower s')
  end.

(* [pat in s] *)
Fixpoint contains (pat s : string) : bool :=
  String.prefix pat s ||
  match s with
  | EmptyString => false
  | String _ s' => contains pat s'
  end.

(** ** Comparison of coordinates *)

Definition Qltb (x y : Q) : bool := (Qnum x * Z.pos (Qden y) <? Qnum y * Z.pos (Qden x)).

(** ** Data model *)

(* [minx, miny, maxx, maxy] *)
Record bounds : Type := {
  min_long : Q;
  min_lat : Q;
  max_long : Q;
  max_lat : Q
}.

(* A STAC item as far as the notebook reads it: [item.datetime] (as a day),
   [item.properties["platform"]], [item.bbox] and the object itself, which
   the crop functions receive. *)
Record item : Type := {
  item_obj : N;
  datetime : Z;
  platform : string;
  bbox : bounds
}.

(* What [select_best_image] returns: [(np.nan, np.nan, np.nan)] or
   [(item, platform, date)]. *)
Inductive selection : Type :=
  | NoSelection
  | Selected (best_item : item) (item_platform : string) (item_date : Z).

(** ** [sort_values]

    [DataFrame.sort_values(by=..., ascending=True)] uses an unstable sort by
    default, so the order among rows of equal key is not fixed. The embedding
    takes any function that returns a permutation of the rows in ascending
    order of the key. *)

Class SortValues : Type := {
  sort_values : (item → Z) → list item → list item;
  sort_values_perm : ∀ key l, sort_values key l ≡ₚ l;
  sort_values_sorted : ∀ key l,
    StronglySorted (λ a b, key a ≤ key b) (sort_values key l)
}.

Definition key_le (key : item → Z) : relation item := λ a b, key a ≤ key b.

#[local] Instance key_le_dec key a b : Decision (key_le key a b).
Proof. unfold key_le. apply _. Defined.

#[local] Instance key_le_trans key : Transitive (key_le key).
Proof. unfold key_le. intros a b c. lia. Qed.

#[local] Instance key_le_total key : Total (key_le key).
Proof. unfold key_le. intros a b. lia. Qed.

(* A concrete instance: merge sort. *)
#[export] Program Instance merge_sort_values : SortValues := {|
  sort_values key l := merge_sort (key_le key) l
|}.
Next Obligation. intros key l. apply merge_sort_Permutation. Qed.
Next Obligation.
  intros key l. apply (StronglySorted_merge_sort (key_le key)).
Qed.

(** ** [select_best_image] *)

Definition contains_sample_point (latitude longitude : Q) (it : item) : bool :=
  Qltb (min_lat (bbox it)) latitude
  && Qltb latitude (max_lat (bbox it))
  && Qltb (min_long (bbox it)) longitude
  && Qltb longitude (max_long (bbox it)).

Definition time_diff (date : Z) (it : item) : Z := date - datetime it.

Definition is_sentinel (platform_name : string) : bool :=
  contains "sentinel" (lower platform_name).

Definition sentinel (it : item) : bool := is_sentinel (platform it).

(* The rows left after the containment filter. *)
Definition containing (items : list item) (latitude longitude : Q) : list item :=
  filter (λ it, contains_sample_point latitude longitude it) items.

(* The rows left after the containment filter and the Sentinel filter. *)
Definition candidates (items : list item) (latitude longitude : Q) : list item :=
  let item_details := filter (λ it, contains_sample_point latitude longitude it) items in
  if existsb sentinel item_details
  then filter (λ it, sentinel it) item_details
  else item_details.

Section select.
Context `{SortValues}.

(* [pd.DataFrame([])] has no columns: reading [item_details.min_lat] on it
   raises AttributeError. With at least one item the columns exist. *)
Definition select_best_image (items : list item) (date : Z)
    (latitude longitude : Q) : result selection :=
  match items with
  | [] => Raise AttributeError
  | _ :: _ =>
    let item_details :=
      filter (λ it, contains_sample_point latitude longitude it) items in
    if (length item_details =? 0)%nat then Return NoSelection
    else
      let item_details :=
        if existsb sentinel item_details
        then filter (λ it, sentinel it) item_details
        else item_details in
      match sort_values (time_diff date) item_details with
      | [] => Raise IndexError
      | best_item :: _ =>
          Return (Selected best_item (platform best_item) (datetime best_item))
      end
  end.

End select.

(** ** Geodesic window *)

(* The two calls into the geodesic library: [distance.distance(meters=m)],
   here the distance object is its length in metres, and
   [d.destination(point=(lat, long), bearing=b)], which returns a point
   [(latitude, longitude)]. Either may raise. *)
Record geodesy : Type := {
  distance : Q → result Q;
  destination : Q → Q * Q → Z → result (Q * Q)
}.

Definition get_bounding_box (G : geodesy) (latitute longitude meter_buffer : Q)
    : result bounds :=
  distance_search ←r distance G meter_buffer;
  south ←r destination G distance_search (latitute, longitude) 180;
  west ←r destination G distance_search (latitute, longitude) 270;
  north ←r destination G distance_search (latitute, longitude) 0;
  east ←r destination G distance_search (latitute, longitude) 90;
  Return {| min_long := west.2; min_lat := south.1;
            max_long := east.2; max_lat := north.1 |}.

(* "start/end": the sample date and [time_buffer_days] days before it. *)
Definition get_date_range (date time_buffer_days : Z) : Z * Z :=
  (date - time_buffer_days, date).

(** ** Rasters *)

(* The pixel values of an 8-bit image, flattened. Transposing the axes before
   saving only reorders them, so the file holds the same values. *)
Definition raster : Type := list N.

(* [sum(image_array.flatten())]: Python's [sum] starts from the integer 0 and
   adds the elements from left to right; the total is taken as exact (it is
   accumulated in 64 bits). *)
Definition pixel_sum (image_array : raster) : N := fold_left N.add image_array 0%N.

(** ** The acquisition loop *)

Record sample : Type := {
  uid : string;
  latitude : Q;
  longitude : Q;
  date : Z;
  split : string
}.

(* The collaborators reached over the network. The two crop functions only
   wrap the raster readers, so they are taken whole. *)
Record world : Type := {
  geo : geodesy;
  (* [catalog.search(collections, bbox, datetime, query).get_items()]; the
     collections and the query are the same for every sample *)
  catalog_search : bounds → Z * Z → result (list item);
  crop_sentinel_image : item → bounds → result raster;
  crop_landsat_image : item → bounds → result raster
}.

(* Requests sent over the network. *)
Inductive call : Type :=
  | SearchCall (search_bbox : bounds) (search_date_range : Z * Z)
  | CropSentinelCall (it : item) (bounding_box : bounds)
  | CropLandsatCall (it : item) (bounding_box : bounds).

(* The image directory, the two accumulators of the cell, the notebook
   variables [best_item, item_platform, item_date] (unbound until the first
   assignment, and kept from one iteration to the next), and the log of
   network requests. *)
Record state : Type := {
  store : gmap string raster;
  paths_dict : gmap string string;
  errored_ids : list string;
  loop_vars : option selection;
  calls : list call
}.

Definition set_store (f : gmap string raster → gmap string raster) (st : state) : state :=
  {| store := f (store st); paths_dict := paths_dict st;
     errored_ids := errored_ids st; loop_vars := loop_vars st; calls := calls st |}.

Definition set_paths_dict (f : gmap string string → gmap string string) (st : state) : state :=
  {| store := store st; paths_dict := f (paths_dict st);
     errored_ids := errored_ids st; loop_vars := loop_vars st; calls := calls st |}.

Definition set_errored_ids (f : list string → list string) (st : state) : state :=
  {| store := store st; paths_dict := paths_dict st;
     errored_ids := f (errored_ids st); loop_vars := loop_vars st; calls := calls st |}.

Definition set_loop_vars (v : option selection) (st : state) : state :=
  {| store := store st; paths_dict := paths_dict st;
     errored_ids := errored_ids st; loop_vars := v; calls := calls st |}.

Definition log_call (c : call) (st : state) : state :=
  {| store := store st; paths_dict := paths_dict st;
     errored_ids := errored_ids st; loop_vars := loop_vars st;
     calls := calls st ++ [c] |}.

(* Statements of the [try] block: they may raise, and what they did to the
   state before raising stays done. *)
Definition M (A : Type) : Type := state → result A * state.

Definition ret {A : Type} (a : A) : M A := λ st, (Return a, st).
Definition raise {A : Type} (e : exn) : M A := λ st, (Raise e, st).
Definition lift {A : Type} (r : result A) : M A := λ st, (r, st).
Definition modify (f : state → state) : M unit := λ st, (Return tt, f st).
Definition get_loop_vars : M (option selection) := λ st, (Return (loop_vars st), st).

Definition bind {A B : Type} (m : M A) (k : A → M B) : M B :=
  λ st, match m st with
        | (Return a, st') => k a st'
        | (Raise e, st') => (Raise e, st')
        end.

Notation "x ←m c1 ; c2" := (bind c1 (λ x, c2))
  (at level 100, c1 at next level, right associativity, only parsing).
Notation "c1 ;;m c2" := (bind c1 (λ _, c2))
  (at level 100, c2 at level 200, right associativity, only parsing).

Definition image_pth (row : sample) : string := uid row +:+ ".png".

Section pipeline.
Context `{SortValues} (W : world).

Definition search (search_bbox : bounds) (search_date_range : Z * Z) : M (list item) :=
  modify (log_call (SearchCall search_bbox search_date_range)) ;;m
  lift (catalog_search W search_bbox search_date_range).

Definition crop (item_platform : string) (best_item : item) (save_bbox : bounds) : M raster :=
  if is_sentinel item_platform
  then modify (log_call (CropSentinelCall best_item save_bbox)) ;;m
       lift (crop_sentinel_image W best_item save_bbox)
  else modify (log_call (CropLandsatCall best_item save_bbox)) ;;m
       lift (crop_landsat_image W best_item save_bbox).

(* From "QUERY PLANETARY COMPUTER" to the crop. *)
Definition acquire_image (row : sample) : M raster :=
  search_bbox ←m lift (get_bounding_box (geo W) (latitude row) (longitude row) 1000);
  let search_date_range := get_date_range (date row) 15 in
  items ←m search search_bbox search_date_range;
  (if (length items =? 0)%nat then ret tt
   else
     sel ←m lift (select_best_image items (date row) (latitude row) (longitude row));
     modify (set_loop_vars (Some sel)) ;;m
     match sel with
     | NoSelection => raise NoImageFound
     | Selected _ _ _ => ret tt
     end) ;;m
  save_bbox ←m lift (get_bounding_box (geo W) (latitude row) (longitude row) 1000);
  vars ←m get_loop_vars;
  match vars with
  | None => raise NameError                  (* item_platform is not defined *)
  | Some NoSelection => raise AttributeError (* nan has no attribute lower *)
  | Some (Selected best_item item_platform _) => crop item_platform best_item save_bbox
  end.

(* The black-image check, [image.save(image_pth)] and the entry in
   [paths_dict]. Writing the file is taken to succeed. *)
Definition save_image (row : sample) (image_array : raster) : M unit :=
  if (pixel_sum image_array =? 0)%N then raise ImageAllBlack
  else
    modify (set_store (insert (image_pth row) image_array)) ;;m
    modify (set_paths_dict (insert (uid row) (image_pth row))).

Definition try_body (row : sample) : M unit :=
  image_array ←m acquire_image row;
  save_image row image_array.

(* One iteration of the loop. The bare [except:] catches whatever the [try]
   block raises. *)
Definition process_row (st : state) (row : sample) : state :=
  match store st !! image_pth row with
  | Some _ => set_paths_dict (insert (uid row) (image_pth row)) st
  | None =>
    match try_body row st with
    | (Return _, st') => st'
    | (Raise _, st') => set_errored_ids (λ ids, ids ++ [uid row]) st'
    end
  end.

Definition acquisition_loop (st : state) (locations_to_get : list sample) : state :=
  foldl process_row st locations_to_get.

(* The cell: both accumulators start empty. *)
Definition get_data (images : gmap string raster) (vars : option selection)
    (locations_to_get : list sample) : state :=
  acquisition_loop
    {| store := images; paths_dict := ∅; errored_ids := [];
       loop_vars := vars; calls := [] |}
    locations_to_get.

End pipeline.

(** ** Removal of black images *)

(* The names of the image files of the directory, in the order of the
   directory: what the listing cell leaves in [imgs] when it is run on this
   directory and the directory has its '.DS_Store' entry. *)
Definition listdir (images : gmap string raster) : list string :=
  (map_to_list images).*1.

(* The test of the scan, on a file name. *)
Definition is_black (images : gmap string raster) (i : string) : bool :=
  match images !! i with
  | Some im_arr => (pixel_sum im_arr =? 0)%N
  | None => false
  end.

(* [Image.open] raises when the file is gone. *)
Fixpoint black_scan (images : gmap string raster) (imgs black_pngs : list string)
    : result (list string) :=
  match imgs with
  | [] => Return black_pngs
  | i :: imgs' =>
    match images !! i with
    | None => Raise FileNotFoundError
    | Some im_arr =>
      black_scan images imgs'
        (if (pixel_sum im_arr =? 0)%N then black_pngs ++ [i] else black_pngs)
    end
  end.

(* [os.remove] raises when the file is gone. *)
Fixpoint remove_files (black_pngs : list string) (images : gmap string raster)
    : result (gmap string raster) :=
  match black_pngs with
  | [] => Return images
  | i :: rest =>
    match images !! i with
    | None => Raise FileNotFoundError
    | Some _ => remove_files rest (delete i images)
    end
  end.


(* One pass in the order of the notebook, on the directory as it is when the
   listing is taken: listing of the image files, scan, removal. *)
Definition scrub (images : gmap string raster) : result (nat * gmap string raster) :=
  black_pngs ←r black_scan images (listdir images) [];
  images' ←r remove_files black_pngs images;
  Return (length black_pngs, images').

(** ** Sample data used in the examples

    Days are proleptic Gregorian ordinals: 2016-08-31 is day 736207. *)

Module Examples.

Definition footprint : bounds :=
  {| min_long := -122; min_lat := 36; max_long := -121; max_lat := 37 |}.

Definition far_footprint : bounds :=
  {| min_long := -100; min_lat := 40; max_long := -99; max_lat := 41 |}.

(* Sentinel-2, 2016-08-20 *)
Definition sentinel_0820 : item :=
  {| item_obj := 1; datetime := 736196; platform := "Sentinel-2A"; bbox := footprint |}.

(* Landsat, 2016-08-25 *)
Definition landsat_0825 : item :=
  {| item_obj := 2; datetime := 736201; platform := "landsat-8"; bbox := footprint |}.

(* Landsat, 2016-08-18 *)
Definition landsat_0818 : item :=
  {| item_obj := 3; datetime := 736194; platform := "landsat-8"; bbox := footprint |}.

(* Landsat, 2016-09-02: after the sample date *)
Definition landsat_0902 : item :=
  {| item_obj := 4; datetime := 736209; platform := "landsat-9"; bbox := footprint |}.

(* Sentinel-2, 2016-08-25, elsewhere *)
Definition sentinel_far : item :=
  {| item_obj := 5; datetime := 736201; platform := "Sentinel-2B"; bbox := far_footprint |}.

Definition aabn : sample :=
  {| uid := "aabn"; latitude := 365597 # 10000; longitude := -12151 # 100;
     date := 736207; split := "test" |}.

(* A second sample at the same place, on 2018-05-14. *)
Definition aabm : sample :=
  {| uid := "aabm"; latitude := 365597 # 10000; longitude := -12151 # 100;
     date := 736828; split := "train" |}.

(* A stand-in for the geodesic library that accepts every input: one degree
   per 111 km along each axis. *)
Definition flat_geodesy : geodesy :=
  {| distance := λ m, Return m;
     destination := λ d p bearing,
       let deg := (d / 111000)%Q in
       Return (if bearing =? 0 then ((p.1 + deg)%Q, p.2)
               else if bearing =? 180 then ((p.1 - deg)%Q, p.2)
               else if bearing =? 90 then (p.1, (p.2 + deg)%Q)
               else (p.1, (p.2 - deg)%Q)) |}.

(* A catalog with one Sentinel-2 scene for the window ending 2016-08-31 and
   nothing for any other window; crops of it are not black. *)
Definition one_scene_world : world :=
  {| geo := flat_geodesy;
     catalog_search := λ _ range,
       Return (if range.2 =? 736207 then [sentinel_0820] else []);
     crop_sentinel_image := λ _ _, Return [10; 20; 30]%N;
     crop_landsat_image := λ _ _, Return [1; 2; 3]%N |}.

(* The same catalog with readers that return black crops. *)
Definition black_world : world :=
  {| geo := flat_geodesy;
     catalog_search := λ _ range,
       Return (if range.2 =? 736207 then [sentinel_0820] else []);
     crop_sentinel_image := λ _ _, Return [0; 0; 0]%N;
     crop_landsat_image := λ _ _, Return [0; 0; 0]%N |}.

(* A catalog that is down. *)
Definition down_world : world :=
  {| geo := flat_geodesy;
     catalog_search := λ _ _, Raise (LibraryError "APIError");
     crop_sentinel_image := λ _ _, Return [10; 20; 30]%N;
     crop_landsat_image := λ _ _, Return [1; 2; 3]%N |}.

Definition empty_state : state :=
  {| store := ∅; paths_dict := ∅; errored_ids := []; loop_vars := None; calls := [] |}.

End Examples.

Module FailureExamples.

(* A third sample, ten kilometres or so from [aabn], on 2018-05-14. *)
Definition near : sample :=
  {| uid := "near"; latitude := 366 # 10; longitude := -1215 # 10;
     date := 736828; split := "train" |}.

(* The catalog of [Examples.one_scene_world], with a Sentinel reader that
   fails on boxes south of latitude 36.57 (the box of [aabn] is, the box of
   [near] is not). *)
Definition crop_fails_world : world :=
  {| geo := Examples.flat_geodesy;
     catalog_search := λ _ range,
       Return (if range.2 =? 736207 then [Examples.sentinel_0820] else []);
     crop_sentinel_image := λ _ b,
       if Qltb (min_lat b) (3657 # 100)
       then Raise (LibraryError "RasterioIOError")
       else Return [10; 20; 30]%N;
     crop_landsat_image := λ _ _, Return [1; 2; 3]%N |}.

End FailureExamples.

(** ** The listing of the saved images *)

(* [l.remove(x)]: drops the first element equal to [x]; ValueError when no
   element is. *)
Fixpoint list_remove (x : string) (l : list string) : result (list string) :=
  match l with
  | [] => Raise (LibraryError "ValueError")
  | y :: l' =>
    if String.eqb y x then Return l'
    else l'' ←r list_remove x l'; Return (y :: l'')
  end.

(* The cell [imgs = os.listdir(IMAGE_DIR); imgs.remove('.DS_Store')], on the
   entries of the directory. *)
Definition saved_images (entries : list string) : result (list string) :=
  list_remove ".DS_Store" entries.

(* [s.replace(old, new)] for a non-empty [old]: the occurrences of [old] are
   replaced from left to right and do not overlap. [skip] counts the
   characters of the current occurrence that are still to be passed over. *)
Fixpoint replace_from (old new : string) (skip : nat) (s : string) : string :=
  match s with
  | EmptyString => EmptyString
  | String c s' =>
    match skip with
    | S k => replace_from old new k s'
    | O =>
      if String.prefix old s
      then new +:+ replace_from old new (String.length old - 1) s'
      else String c (replace_from old new 0 s')
    end
  end.

Definition replace (old new s : string) : string := replace_from old new 0 s.

(* [df['uid'].apply(lambda x: x.replace('.png', ''))] *)
Definition saved_uids (imgs : list string) : list string :=
  (λ x, replace ".png" "" x) <$> imgs.

(** ** Checkpointing and early stopping (training notebook)

    The validation loss of each epoch is what training and validation
    produce; the loop below only compares these numbers. *)

(* A Python float as far as it is compared: a finite value, an infinity, or
   nan. *)
Inductive pyfloat : Type :=
  | NegInf
  | Finite (q : Q)
  | PosInf
  | NaN.

(* [a > b]; a comparison with nan is False. *)
Definition float_gt (a b : pyfloat) : bool :=
  match a, b with
  | NaN, _ => false
  | _, NaN => false
  | NegInf, _ => false
  | Finite _, NegInf => true
  | Finite x, Finite y => Qltb y x
  | Finite _, PosInf => false
  | PosInf, PosInf => false
  | PosInf, _ => true
  end.

(* [best_loss], [counter], the epoch whose weights [checkpoint.pt] holds, the
   number of epochs run, and whether the loop was left by [break]. *)
Record trainer : Type := {
  best_loss : option pyfloat;
  counter : Z;
  checkpoint : option nat;
  epochs_run : nat;
  stopped : bool
}.

(* "CHECKPOINTING AND EARLY STOPPING", at the end of epoch [epoch]. *)
Definition epoch_end (patience : Z) (epoch : nat) (avg_val_loss : pyfloat)
    (t : trainer) : trainer :=
  match best_loss t with
  | None =>
      {| best_loss := Some avg_val_loss; counter := counter t;
         checkpoint := Some epoch; epochs_run := S epoch; stopped := false |}
  | Some best =>
      if float_gt avg_val_loss best
      then {| best_loss := Some best; counter := counter t + 1;
              checkpoint := checkpoint t; epochs_run := S epoch;
              stopped := (patience <=? counter t + 1) |}
      else {| best_loss := Some avg_val_loss; counter := 0;
              checkpoint := Some epoch; epochs_run := S epoch; stopped := false |}
  end.

(* [for epoch in range(num_epochs)], from epoch [epoch] on; [losses] holds
   the validation loss of the epochs still to run. *)
Fixpoint training_loop (patience : Z) (epoch : nat) (losses : list pyfloat)
    (t : trainer) : trainer :=
  match losses with
  | [] => t
  | avg_val_loss :: rest =>
    let t' := epoch_end patience epoch avg_val_loss t in
    if stopped t' then t' else training_loop patience (S epoch) rest t'
  end.

Definition train (patience : Z) (losses : list pyfloat) : trainer :=
  training_loop patience 0 losses
    {| best_loss := None; counter := 0; checkpoint := None;
       epochs_run := 0; stopped := false |}.

(* What holds after every epoch: [all] is the validation loss of every epoch
   of the run, those not yet reached included. *)
Definition trainer_inv (patience : Z) (all : list pyfloat) (t : trainer) : Prop :=
  (epochs_run t ≤ length all)%nat ∧
  match best_loss t, checkpoint t with
  | None, None => epochs_run t = 0%nat ∧ counter t = 0 ∧ stopped t = false
  | Some b, Some e =>
      all !! e = Some b ∧
      (e < epochs_run t)%nat ∧
      (NaN ∉ all →
       ∀ j l, (j < epochs_run t)%nat → all !! j = Some l → float_gt b l = false) ∧
      (∀ j l, (e < j < epochs_run t)%nat → all !! j = Some l → float_gt l b = true) ∧
      counter t = Z.of_nat (epochs_run t) - 1 - Z.of_nat e ∧
      (if stopped t then counter t = Z.max 1 patience
       else counter t = 0 ∨ counter t < patience)
  | _, _ => False
  end.

(** ** Filling the submission (training notebook) *)

Record submission_row : Type := {
  row_uid : string;
  region : string;
  severity : Z
}.

(* [submission.loc[submission.uid == uid, 'severity'] = prediction] *)
Definition set_severity (u : string) (prediction : Z)
    (submission : list submission_row) : list submission_row :=
  (λ r, if String.eqb (row_uid r) u
        then {| row_uid := row_uid r; region := region r; severity := prediction |}
        else r) <$> submission.

(* The prediction loop over the test loader (batches of one sample), given
   the uid and the predicted class of each batch. *)
Definition fill_submission (predictions : list (string * Z))
    (submission_format : list submission_row) : list submission_row :=
  foldl (λ submission p, set_severity p.1 p.2 submission)
        submission_format predictions.

(** ** Sample data for the training notebook *)

Module TrainingExamples.

(* The validation losses the notebook prints for its first three epochs, and
   a fourth one. *)
Definition printed_losses : list pyfloat :=
  [Finite (9865 # 10000); Finite (10514 # 10000); Finite (13018 # 10000)].

Definition four_losses : list pyfloat :=
  [Finite (9865 # 10000); Finite (10514 # 10000); Finite (13018 # 10000);
   Finite (12000 # 10000)].

Definition submission_format : list submission_row :=
  [{| row_uid := "aabn"; region := "west"; severity := 1 |};
   {| row_uid := "aair"; region := "west"; severity := 1 |};
   {| row_uid := "aajw"; region := "northeast"; severity := 1 |}].

End TrainingExamples.

(** * Properties *)

Lemma Qltb_lt (x y : Q) : Qltb x y = true ↔ (x < y)%Q.
Proof. unfold Qltb, Qlt. apply Z.ltb_lt. Qed.

(* strict containment on both axes *)
Lemma contains_sample_point_spec lat lon it :
  contains_sample_point lat lon it = true ↔
  (min_lat (bbox it) < lat ∧ lat < max_lat (bbox it) ∧
   min_long (bbox it) < lon ∧ lon < max_long (bbox it))%Q.
Proof.
  unfold contains_sample_point.
  rewrite !andb_true_iff, !Qltb_lt. tauto.
Qed.

(** ** Sorting *)

Section sort_facts.
Context `{SortValues}.

Lemma sort_values_elem_of key l it : it ∈ sort_values key l ↔ it ∈ l.
Proof. by rewrite (sort_values_perm key l). Qed.

Lemma sort_values_nil key l : sort_values key l = [] → l = [].
Proof.
  intros Hnil. pose proof (sort_values_perm key l) as Hp.
  rewrite Hnil in Hp. symmetry in Hp. by apply Permutation_nil_r in Hp.
Qed.

(* [.iloc[0]] of the sorted frame is a row of least key. *)
Lemma sort_values_head key l best rest :
  sort_values key l = best :: rest →
  best ∈ l ∧ ∀ it, it ∈ l → key best ≤ key it.
Proof.
  intros Hs. split.
  - apply (sort_values_elem_of key). rewrite Hs. left.
  - intros it Hit. apply (sort_values_elem_of key) in Hit.
    pose proof (sort_values_sorted key l) as Hsorted.
    rewrite Hs in Hit, Hsorted.
    apply StronglySorted_inv in Hsorted as [_ Hall].
    apply elem_of_cons in Hit as [->|Hit]; [lia|].
    rewrite Forall_forall in Hall. by apply Hall.
Qed.

End sort_facts.

(** ** The rows that reach the sort *)

Lemma existsb_sentinel_true (l : list item) :
  existsb sentinel l = true ↔ ∃ it, it ∈ l ∧ sentinel it = true.
Proof.
  rewrite existsb_exists.
  split; intros (it & Hin & Hs); exists it; split; try done;
    by apply list_elem_of_In.
Qed.

Lemma elem_of_containing lat lon (items : list item) it :
  it ∈ filter (λ it, contains_sample_point lat lon it) items ↔
  contains_sample_point lat lon it = true ∧ it ∈ items.
Proof. by rewrite list_elem_of_filter, Is_true_true. Qed.

Lemma elem_of_candidates (items : list item) lat lon it :
  it ∈ candidates items lat lon ↔
  it ∈ items ∧ contains_sample_point lat lon it = true ∧
  ((∃ s, s ∈ items ∧ contains_sample_point lat lon s = true ∧ sentinel s = true) →
   sentinel it = true).
Proof.
  unfold candidates.
  destruct (existsb sentinel _) eqn:Hany.
  - apply existsb_sentinel_true in Hany as (s & Hs & Hsen).
    apply elem_of_containing in Hs as [Hc Hs].
    rewrite list_elem_of_filter, Is_true_true, elem_of_containing.
    split; [tauto|]. intros (Hin & Hcont & Himp). split_and!; try done.
    apply Himp. by exists s.
  - rewrite elem_of_containing. split; [|tauto].
    intros [Hc Hin]. split_and!; try done.
    intros (s & Hs & Hcs & Hsen).
    assert (existsb sentinel
      (filter (λ it, contains_sample_point lat lon it) items) = true) as Habs.
    { apply existsb_sentinel_true. exists s. by rewrite elem_of_containing. }
    congruence.
Qed.

(* A containing row always leaves a candidate: the Sentinel filter is only
   applied when it keeps something. *)
Lemma candidates_nonempty (items : list item) lat lon it :
  it ∈ items → contains_sample_point lat lon it = true →
  candidates items lat lon ≠ [].
Proof.
  intros Hin Hc Hnil.
  destruct (existsb sentinel (filter (λ it, contains_sample_point lat lon it) items))
    eqn:Hany.
  - pose proof Hany as Hany'.
    apply existsb_sentinel_true in Hany' as (s & Hs & Hsen).
    apply elem_of_containing in Hs as [Hcs Hs].
    assert (s ∈ candidates items lat lon) as Hmem.
    { apply elem_of_candidates. by split_and!. }
    rewrite Hnil in Hmem. by apply elem_of_nil in Hmem.
  - assert (it ∈ candidates items lat lon) as Hmem.
    { apply elem_of_candidates. split_and!; try done.
      intros (s & Hs & Hcs & Hsen).
      assert (existsb sentinel
        (filter (λ it, contains_sample_point lat lon it) items) = true) as Habs.
      { apply existsb_sentinel_true. exists s. by rewrite elem_of_containing. }
      congruence. }
    rewrite Hnil in Hmem. by apply elem_of_nil in Hmem.
Qed.

Section select_facts.
Context `{SortValues}.

(* The two ways [select_best_image] ends on a frame with rows. *)
Lemma select_best_image_cases (items : list item) date lat lon :
  items ≠ [] →
  ((∀ it, it ∈ items → contains_sample_point lat lon it = false) ∧
   select_best_image items date lat lon = Return NoSelection)
  ∨
  (∃ best,
     select_best_image items date lat lon
       = Return (Selected best (platform best) (datetime best)) ∧
     best ∈ candidates items lat lon ∧
     ∀ it, it ∈ candidates items lat lon → time_diff date best ≤ time_diff date it).
Proof.
  intros Hne. destruct items as [|i0 items']; [done|].
  unfold select_best_image.
  set (items := i0 :: items') in *.
  destruct (length (filter (λ it, contains_sample_point lat lon it) items) =? 0)%nat
    eqn:Hlen.
  - left. split; [|done].
    apply Nat.eqb_eq, nil_length_inv in Hlen.
    intros it Hin. destruct (contains_sample_point lat lon it) eqn:Hc; [|done].
    exfalso. eapply filter_nil_not_elem_of; [exact Hlen| |exact Hin].
    by apply Is_true_true.
  - right. apply Nat.eqb_neq in Hlen.
    change (if existsb sentinel (filter (λ it, contains_sample_point lat lon it) items)
            then filter (λ it, sentinel it)
                   (filter (λ it, contains_sample_point lat lon it) items)
            else filter (λ it, contains_sample_point lat lon it) items)
      with (candidates items lat lon).
    destruct (sort_values (time_diff date) (candidates items lat lon))
      as [|best rest] eqn:Hsort.
    + exfalso. apply sort_values_nil in Hsort.
      destruct (filter (λ it, contains_sample_point lat lon it) items)
        as [|c cs] eqn:Hf; [done|].
      assert (c ∈ filter (λ it, contains_sample_point lat lon it) items) as Hc.
      { rewrite Hf. left. }
      apply elem_of_containing in Hc as [Hc Hin].
      by apply (candidates_nonempty items lat lon c).
    + exists best. split; [done|].
      by apply sort_values_head in Hsort.
Qed.

End select_facts.

(** ** Claims about [select_best_image] *)

(** C2. Whenever some candidate of the Sentinel family contains the sample
    point, [select_best_image] returns a candidate of the Sentinel family that
    contains the point, whatever the capture dates and the target date are. *)
Theorem select_prefers_sentinel `{SortValues} (items : list item) date lat lon :
  (∃ s, s ∈ items ∧ contains_sample_point lat lon s = true ∧ sentinel s = true) →
  ∃ best,
    select_best_image items date lat lon
      = Return (Selected best (platform best) (datetime best)) ∧
    best ∈ items ∧
    contains_sample_point lat lon best = true ∧
    is_sentinel (platform best) = true.
Proof.
  intros (s & Hs & Hcs & Hsen).
  destruct (select_best_image_cases items date lat lon) as [[Hnone _]|(best & Hsel & Hbest & _)].
  - intros ->. by apply elem_of_nil in Hs.
  - specialize (Hnone s Hs). congruence.
  - exists best. split; [done|].
    apply elem_of_candidates in Hbest as (Hin & Hc & Himp).
    split_and!; try done. apply Himp. by exists s.
Qed.

(* The spec's example: Sentinel-2 of 2016-08-20 against Landsat of 2016-08-25. *)
Lemma select_prefers_sentinel_witness :
  ∃ best,
    select_best_image [Examples.sentinel_0820; Examples.landsat_0825] 736207
        (latitude Examples.aabn) (longitude Examples.aabn)
      = Return (Selected best (platform best) (datetime best)) ∧
    best ∈ [Examples.sentinel_0820; Examples.landsat_0825] ∧
    contains_sample_point (latitude Examples.aabn) (longitude Examples.aabn) best = true ∧
    is_sentinel (platform best) = true.
Proof.
  apply select_prefers_sentinel.
  exists Examples.sentinel_0820. split_and!.
  - left.
  - reflexivity.
  - reflexivity.
Defined.

(** C3. When the candidates that contain the sample point are not empty, all
    of one family, and all captured on or before the target date,
    [select_best_image] returns one of them whose capture date is the latest
    of their capture dates, and that date is on or before the target date. *)
Theorem select_closest_prior `{SortValues} (items : list item) date lat lon :
  containing items lat lon ≠ [] →
  (∀ a b, a ∈ containing items lat lon → b ∈ containing items lat lon →
          sentinel a = sentinel b) →
  (∀ it, it ∈ containing items lat lon → datetime it ≤ date) →
  ∃ best,
    select_best_image items date lat lon
      = Return (Selected best (platform best) (datetime best)) ∧
    best ∈ containing items lat lon ∧
    datetime best ≤ date ∧
    ∀ it, it ∈ containing items lat lon → datetime it ≤ datetime best.
Proof.
  unfold containing. intros Hne Hfam Hprior.
  destruct (filter (λ it, contains_sample_point lat lon it) items)
    as [|c cs] eqn:Hcont; [done|].
  assert (c ∈ filter (λ it, contains_sample_point lat lon it) items) as Hc.
  { rewrite Hcont. left. }
  apply elem_of_containing in Hc as [Hcc Hcin].
  destruct (select_best_image_cases items date lat lon) as [[Hnone _]|(best & Hsel & Hbest & Hmin)].
  - intros ->. by apply elem_of_nil in Hcin.
  - specialize (Hnone c Hcin). congruence.
  - exists best. split; [done|].
    pose proof Hbest as Hbest'.
    apply elem_of_candidates in Hbest' as (Hin & Hbc & Himp).
    assert (best ∈ c :: cs) as Hbin.
    { rewrite <- Hcont. by apply elem_of_containing. }
    split_and!; try done; [by apply Hprior|].
    intros it Hit.
    assert (it ∈ candidates items lat lon) as Hcand.
    { pose proof Hit as Hit'. rewrite <- Hcont in Hit'.
      apply elem_of_containing in Hit' as [Hic Hiin].
      apply elem_of_candidates. split_and!; try done.
      intros (s & Hs & Hsc & Hsen).
      rewrite (Hfam it best Hit Hbin). apply Himp. by exists s. }
    specialize (Hmin it Hcand). unfold time_diff in Hmin. lia.
Qed.

Lemma select_closest_prior_witness :
  ∃ best,
    select_best_image [Examples.landsat_0818; Examples.sentinel_far; Examples.landsat_0825]
        736207 (latitude Examples.aabn) (longitude Examples.aabn)
      = Return (Selected best (platform best) (datetime best)) ∧
    best ∈ containing
             [Examples.landsat_0818; Examples.sentinel_far; Examples.landsat_0825]
             (latitude Examples.aabn) (longitude Examples.aabn) ∧
    datetime best ≤ 736207 ∧
    ∀ it, it ∈ containing
                 [Examples.landsat_0818; Examples.sentinel_far; Examples.landsat_0825]
                 (latitude Examples.aabn) (longitude Examples.aabn) →
          datetime it ≤ datetime best.
Proof.
  apply (select_closest_prior
           [Examples.landsat_0818; Examples.sentinel_far; Examples.landsat_0825]
           736207 (latitude Examples.aabn) (longitude Examples.aabn)).
  - discriminate.
  - change (containing _ _ _)
      with [Examples.landsat_0818; Examples.landsat_0825].
    intros a b Ha Hb.
    apply elem_of_cons in Ha as [->|Ha];
      [|apply elem_of_cons in Ha as [->|Ha]; [|by apply elem_of_nil in Ha]];
    (apply elem_of_cons in Hb as [->|Hb];
      [|apply elem_of_cons in Hb as [->|Hb]; [|by apply elem_of_nil in Hb]]);
    reflexivity.
  - change (containing _ _ _)
      with [Examples.landsat_0818; Examples.landsat_0825].
    intros it Hit.
    apply elem_of_cons in Hit as [->|Hit];
      [|apply elem_of_cons in Hit as [->|Hit]; [|by apply elem_of_nil in Hit]];
    simpl; lia.
Defined.

(** C4 (as the code has it). On a candidate list with at least one item
    [select_best_image] never raises, and when no candidate contains the
    sample point it returns the empty result [(nan, nan, nan)]. *)
Theorem select_total_on_nonempty `{SortValues} (items : list item) date lat lon :
  items ≠ [] →
  (∃ sel, select_best_image items date lat lon = Return sel) ∧
  ((∀ it, it ∈ items → contains_sample_point lat lon it = false) →
   select_best_image items date lat lon = Return NoSelection).
Proof.
  intros Hne.
  destruct (select_best_image_cases items date lat lon Hne)
    as [[Hnone Hsel]|(best & Hsel & Hbest & _)].
  - split; [by eexists|done].
  - split; [by eexists|].
    intros Hnone. apply elem_of_candidates in Hbest as (Hin & Hc & _).
    specialize (Hnone best Hin). congruence.
Qed.

(* The spec's second example without its Landsat scene: the only candidate
   lies elsewhere. *)
Lemma select_total_on_nonempty_witness :
  (∃ sel, select_best_image [Examples.sentinel_far] 736207
            (latitude Examples.aabn) (longitude Examples.aabn) = Return sel) ∧
  ((∀ it, it ∈ [Examples.sentinel_far] →
      contains_sample_point (latitude Examples.aabn) (longitude Examples.aabn) it = false) →
   select_best_image [Examples.sentinel_far] 736207
     (latitude Examples.aabn) (longitude Examples.aabn) = Return NoSelection).
Proof.
  apply (select_total_on_nonempty [Examples.sentinel_far]). discriminate.
Defined.

(** C4, the empty list: the frame built from no items has no columns and the
    containment filter raises, so the result is not the empty selection. *)
Lemma select_empty_list_raises :
  select_best_image [] 736207 (latitude Examples.aabn) (longitude Examples.aabn)
    = Raise AttributeError ∧
  select_best_image [] 736207 (latitude Examples.aabn) (longitude Examples.aabn)
    ≠ Return NoSelection.
Proof. split; [reflexivity|discriminate]. Qed.

(** C10 (as the code has it). Among the candidates that survive the
    containment filter and the Sentinel filter, [select_best_image] takes one
    of least signed difference [date - capture date]. If one of them was
    captured after the target date, the scene returned was captured after the
    target date, and later than every surviving capture of the target date or
    before. The "most recent prior" behaviour holds only when every surviving
    candidate was captured on or before the target date: a scene of the
    target date or before is returned only then, and then it is the latest of
    the surviving captures. *)
Theorem select_minimises_signed_difference `{SortValues}
    (items : list item) date lat lon :
  (∀ post,
     post ∈ candidates items lat lon →
     date < datetime post →
     ∃ best,
       select_best_image items date lat lon
         = Return (Selected best (platform best) (datetime best)) ∧
       best ∈ candidates items lat lon ∧
       date < datetime best ∧
       (∀ it, it ∈ candidates items lat lon →
              date - datetime best ≤ date - datetime it) ∧
       (∀ it, it ∈ candidates items lat lon → datetime it ≤ date →
              datetime it < datetime best)) ∧
  (∀ best item_platform item_date,
     select_best_image items date lat lon
       = Return (Selected best item_platform item_date) →
     datetime best ≤ date →
     ∀ it, it ∈ candidates items lat lon → datetime it ≤ date) ∧
  (∀ c,
     c ∈ candidates items lat lon →
     (∀ it, it ∈ candidates items lat lon → datetime it ≤ date) →
     ∃ best,
       select_best_image items date lat lon
         = Return (Selected best (platform best) (datetime best)) ∧
       best ∈ candidates items lat lon ∧
       datetime best ≤ date ∧
       ∀ it, it ∈ candidates items lat lon → datetime it ≤ datetime best).
Proof.
  assert (∀ c, c ∈ candidates items lat lon →
            ∃ best,
              select_best_image items date lat lon
                = Return (Selected best (platform best) (datetime best)) ∧
              best ∈ candidates items lat lon ∧
              ∀ it, it ∈ candidates items lat lon →
                    date - datetime best ≤ date - datetime it) as Hsel.
  { intros c Hc. pose proof Hc as Hc'.
    apply elem_of_candidates in Hc' as (Hin & Hcc & _).
    destruct (select_best_image_cases items date lat lon)
      as [[Hnone _]|(best & Hsel & Hbest & Hmin)].
    - intros ->. by apply elem_of_nil in Hin.
    - specialize (Hnone c Hin). congruence.
    - exists best. by split_and!. }
  split_and!.
  - intros post Hpost Hlate.
    destruct (Hsel post Hpost) as (best & Hret & Hbest & Hmin).
    exists best. pose proof (Hmin post Hpost) as Hp.
    split_and!; try done; [lia|].
    intros it Hit Hle. lia.
  - intros best p d Hret Hprior it Hit.
    destruct (Hsel it Hit) as (best' & Hret' & _ & Hmin).
    rewrite Hret in Hret'. simplify_eq.
    specialize (Hmin it Hit). lia.
  - intros c Hc Hall.
    destruct (Hsel c Hc) as (best & Hret & Hbest & Hmin).
    exists best. split_and!; try done; [by apply Hall|].
    intros it Hit. specialize (Hmin it Hit). lia.
Qed.

Lemma select_minimises_signed_difference_witness :
  (∃ best,
     select_best_image [Examples.landsat_0818; Examples.landsat_0902; Examples.landsat_0825]
         736207 (latitude Examples.aabn) (longitude Examples.aabn)
       = Return (Selected best (platform best) (datetime best)) ∧
     best ∈ candidates [Examples.landsat_0818; Examples.landsat_0902; Examples.landsat_0825]
              (latitude Examples.aabn) (longitude Examples.aabn) ∧
     736207 < datetime best ∧
     (∀ it, it ∈ candidates [Examples.landsat_0818; Examples.landsat_0902; Examples.landsat_0825]
                   (latitude Examples.aabn) (longitude Examples.aabn) →
            736207 - datetime best ≤ 736207 - datetime it) ∧
     (∀ it, it ∈ candidates [Examples.landsat_0818; Examples.landsat_0902; Examples.landsat_0825]
                   (latitude Examples.aabn) (longitude Examples.aabn) →
            datetime it ≤ 736207 → datetime it < datetime best)) ∧
  (∀ it, it ∈ candidates [Examples.landsat_0818; Examples.landsat_0825]
                (latitude Examples.aabn) (longitude Examples.aabn) →
         datetime it ≤ 736207) ∧
  (∃ best,
     select_best_image [Examples.landsat_0818; Examples.landsat_0825]
         736207 (latitude Examples.aabn) (longitude Examples.aabn)
       = Return (Selected best (platform best) (datetime best)) ∧
     best ∈ candidates [Examples.landsat_0818; Examples.landsat_0825]
              (latitude Examples.aabn) (longitude Examples.aabn) ∧
     datetime best ≤ 736207 ∧
     ∀ it, it ∈ candidates [Examples.landsat_0818; Examples.landsat_0825]
                  (latitude Examples.aabn) (longitude Examples.aabn) →
           datetime it ≤ datetime best).
Proof.
  destruct (select_minimises_signed_difference
              [Examples.landsat_0818; Examples.landsat_0902; Examples.landsat_0825]
              736207 (latitude Examples.aabn) (longitude Examples.aabn))
    as (Hpost & _ & _).
  destruct (select_minimises_signed_difference
              [Examples.landsat_0818; Examples.landsat_0825]
              736207 (latitude Examples.aabn) (longitude Examples.aabn))
    as (_ & Honly & Hprior).
  assert (∀ it, it ∈ candidates [Examples.landsat_0818; Examples.landsat_0825]
                       (latitude Examples.aabn) (longitude Examples.aabn) →
                datetime it ≤ 736207) as Hall.
  { apply (Honly Examples.landsat_0825 "landsat-8" 736201); [reflexivity|].
    simpl. lia. }
  split_and!.
  - apply (Hpost Examples.landsat_0902); [right; left|simpl; lia].
  - exact Hall.
  - apply (Hprior Examples.landsat_0818); [left|exact Hall].
Defined.

(** C10, as stated: a Landsat capture after the target date that contains the
    point is passed over for a Sentinel capture before the target date. *)
Lemma select_post_target_not_always_selected :
  Examples.landsat_0902 ∈ [Examples.sentinel_0820; Examples.landsat_0902] ∧
  contains_sample_point (latitude Examples.aabn) (longitude Examples.aabn)
    Examples.landsat_0902 = true ∧
  736207 < datetime Examples.landsat_0902 ∧
  select_best_image [Examples.sentinel_0820; Examples.landsat_0902] 736207
      (latitude Examples.aabn) (longitude Examples.aabn)
    = Return (Selected Examples.sentinel_0820 "Sentinel-2A" 736196) ∧
  datetime Examples.sentinel_0820 < 736207.
Proof.
  split_and!.
  - right. left.
  - reflexivity.
  - simpl. lia.
  - reflexivity.
  - simpl. lia.
Qed.

(** ** Rasters *)

Lemma fold_left_add_ge (l : list N) (a : N) : (a ≤ fold_left N.add l a)%N.
Proof.
  revert a. induction l as [|x l IH]; intros a; simpl; [lia|].
  specialize (IH (a + x)%N). lia.
Qed.

(* Pixel values are not negative: the sum is zero only for a black image. *)
Lemma pixel_sum_zero (image_array : raster) :
  pixel_sum image_array = 0%N ↔ Forall (λ v, v = 0%N) image_array.
Proof.
  unfold pixel_sum. induction image_array as [|x l IH]; simpl.
  - split; [constructor|done].
  - split.
    + intros Hsum. pose proof (fold_left_add_ge l (0 + x)) as Hge.
      assert (x = 0%N) as -> by lia.
      constructor; [done|]. by apply IH.
    + intros Hall. apply Forall_cons in Hall as [-> Hall]. by apply IH.
Qed.

(** ** The acquisition loop *)

Ltac unfold_M :=
  unfold try_body, save_image, acquire_image, search, crop,
    bind, lift, modify, ret, raise, get_loop_vars in *.

Section pipeline_facts.
Context `{SortValues} (W : world).

(* Nothing before the save touches the directory or the accumulators. *)
Lemma acquire_image_frame row st r st' :
  acquire_image W row st = (r, st') →
  store st' = store st ∧ paths_dict st' = paths_dict st ∧
  errored_ids st' = errored_ids st.
Proof.
  unfold_M. intros Heq.
  repeat case_match; simplify_eq/=; done.
Qed.

(* A [try] block that raises has written nothing. *)
Lemma try_body_raise_frame row st e st' :
  try_body W row st = (Raise e, st') →
  store st' = store st ∧ paths_dict st' = paths_dict st ∧
  errored_ids st' = errored_ids st.
Proof.
  unfold try_body, bind. intros Heq.
  destruct (acquire_image W row st) as [[image_array|e0] st0] eqn:Hacq.
  - apply acquire_image_frame in Hacq.
    unfold save_image, bind, modify, raise in Heq.
    destruct (pixel_sum image_array =? 0)%N; simplify_eq/=. done.
  - apply acquire_image_frame in Hacq. by simplify_eq.
Qed.

(* What a [try] block that returns has written. *)
Lemma try_body_return_frame row st u st' :
  try_body W row st = (Return u, st') →
  ∃ image_array,
    pixel_sum image_array ≠ 0%N ∧
    store st' = <[image_pth row := image_array]> (store st) ∧
    paths_dict st' = <[uid row := image_pth row]> (paths_dict st) ∧
    errored_ids st' = errored_ids st.
Proof.
  unfold try_body, bind. intros Heq.
  destruct (acquire_image W row st) as [[image_array|e0] st0] eqn:Hacq; [|done].
  apply acquire_image_frame in Hacq as (Hs & Hp & He).
  unfold save_image, bind, modify, raise in Heq.
  destruct (pixel_sum image_array =? 0)%N eqn:Hsum; simplify_eq/=.
  exists image_array. apply N.eqb_neq in Hsum.
  rewrite Hs, Hp, He. done.
Qed.

Lemma process_row_cached st row im :
  store st !! image_pth row = Some im →
  process_row W st row = set_paths_dict (insert (uid row) (image_pth row)) st.
Proof. unfold process_row. by intros ->. Qed.

Lemma process_row_raise st row e st' :
  store st !! image_pth row = None →
  try_body W row st = (Raise e, st') →
  process_row W st row = set_errored_ids (λ ids, ids ++ [uid row]) st'.
Proof. unfold process_row. by intros -> ->. Qed.

Lemma process_row_return st row u st' :
  store st !! image_pth row = None →
  try_body W row st = (Return u, st') →
  process_row W st row = st'.
Proof. unfold process_row. by intros -> ->. Qed.

(* Each iteration ends in exactly one of three ways. *)
Lemma process_row_cases st row :
  (∃ im, store st !! image_pth row = Some im ∧
     process_row W st row = set_paths_dict (insert (uid row) (image_pth row)) st)
  ∨ (∃ e st', store st !! image_pth row = None ∧
       try_body W row st = (Raise e, st') ∧
       process_row W st row = set_errored_ids (λ ids, ids ++ [uid row]) st')
  ∨ (∃ u st', store st !! image_pth row = None ∧
       try_body W row st = (Return u, st') ∧
       process_row W st row = st').
Proof.
  destruct (store st !! image_pth row) as [im|] eqn:Hex.
  - left. exists im. split; [done|]. by apply (process_row_cached _ _ im).
  - right. destruct (try_body W row st) as [[u|e] st'] eqn:Hbody.
    + right. exists u, st'. split_and!; try done. by apply (process_row_return _ _ u).
    + left. exists e, st'. split_and!; try done. by apply (process_row_raise _ _ e).
Qed.

Lemma acquisition_loop_snoc st rows row :
  acquisition_loop W st (rows ++ [row])
    = process_row W (acquisition_loop W st rows) row.
Proof. unfold acquisition_loop. by rewrite foldl_app. Qed.

Lemma acquisition_loop_app st rows1 rows2 :
  acquisition_loop W st (rows1 ++ rows2)
    = acquisition_loop W (acquisition_loop W st rows1) rows2.
Proof. unfold acquisition_loop. by rewrite foldl_app. Qed.

(* The loop only ever adds to the failure list and to [paths_dict]. *)
Lemma process_row_mono st row :
  (∀ u, u ∈ errored_ids st → u ∈ errored_ids (process_row W st row)) ∧
  (∀ u, u ∈ dom (paths_dict st) → u ∈ dom (paths_dict (process_row W st row))).
Proof.
  destruct (process_row_cases st row)
    as [(im & _ & ->)|[(e & st' & _ & Hb & ->)|(u0 & st' & _ & Hb & ->)]]; simpl.
  - split; [done|]. intros u Hu. rewrite dom_insert_L. set_solver.
  - apply try_body_raise_frame in Hb as (_ & Hp & He). rewrite Hp, He.
    split; [|done]. intros u Hu. apply elem_of_app. by left.
  - apply try_body_return_frame in Hb as (im & _ & _ & Hp & He). rewrite Hp, He.
    split; [done|]. intros u Hu. rewrite dom_insert_L. set_solver.
Qed.

Lemma acquisition_loop_mono st rows :
  (∀ u, u ∈ errored_ids st → u ∈ errored_ids (acquisition_loop W st rows)) ∧
  (∀ u, u ∈ dom (paths_dict st) → u ∈ dom (paths_dict (acquisition_loop W st rows))).
Proof.
  revert st. induction rows as [|row rows IH]; intros st; [done|].
  change (acquisition_loop W st (row :: rows))
    with (acquisition_loop W (process_row W st row) rows).
  destruct (IH (process_row W st row)) as [IHe IHp].
  destruct (process_row_mono st row) as [He Hp].
  split; intros u Hu; [apply IHe, He|apply IHp, Hp]; done.
Qed.

(* Every iteration records its sample in one of the two accumulators. *)
Lemma process_row_outcome st row :
  uid row ∈ dom (paths_dict (process_row W st row)) ∨
  uid row ∈ errored_ids (process_row W st row).
Proof.
  destruct (process_row_cases st row)
    as [(im & _ & ->)|[(e & st' & _ & Hb & ->)|(u0 & st' & _ & Hb & ->)]]; simpl.
  - left. rewrite dom_insert_L. set_solver.
  - right. apply elem_of_app. right. left.
  - left. apply try_body_return_frame in Hb as (im & _ & _ & Hp & _).
    rewrite Hp, dom_insert_L. set_solver.
Qed.

End pipeline_facts.

(** ** Claims about the acquisition loop *)

Section empty_search.
Context `{SortValues} (W : world).

(* An empty search result in a notebook where no scene was ever selected:
   [item_platform] is undefined, the sample fails and nothing is fetched. *)
Lemma empty_search_without_selection st row search_bbox :
  store st !! image_pth row = None →
  get_bounding_box (geo W) (latitude row) (longitude row) 1000 = Return search_bbox →
  catalog_search W search_bbox (get_date_range (date row) 15) = Return [] →
  loop_vars st = None →
  errored_ids (process_row W st row) = errored_ids st ++ [uid row] ∧
  store (process_row W st row) = store st ∧
  calls (process_row W st row)
    = calls st ++ [SearchCall search_bbox (get_date_range (date row) 15)].
Proof.
  intros Hst Hbox Hsearch Hvars.
  unfold process_row. rewrite Hst. unfold_M.
  rewrite Hbox. simpl. rewrite Hsearch. simpl. rewrite Hvars. done.
Qed.

(* An empty search result after an earlier iteration selected a scene: the
   branch for [len(items) == 0] does nothing, the variables of the earlier
   iteration are still bound, and that scene is cropped and saved under the
   current sample's name. *)
Lemma empty_search_reuses_selection st row search_bbox best_item item_platform
    item_date image_array :
  store st !! image_pth row = None →
  get_bounding_box (geo W) (latitude row) (longitude row) 1000 = Return search_bbox →
  catalog_search W search_bbox (get_date_range (date row) 15) = Return [] →
  loop_vars st = Some (Selected best_item item_platform item_date) →
  (if is_sentinel item_platform
   then crop_sentinel_image W best_item search_bbox
   else crop_landsat_image W best_item search_bbox) = Return image_array →
  pixel_sum image_array ≠ 0%N →
  store (process_row W st row) !! image_pth row = Some image_array ∧
  paths_dict (process_row W st row) !! uid row = Some (image_pth row) ∧
  errored_ids (process_row W st row) = errored_ids st.
Proof.
  intros Hst Hbox Hsearch Hvars Hcrop Hsum.
  apply N.eqb_neq in Hsum.
  unfold process_row. rewrite Hst. unfold_M.
  rewrite Hbox. simpl. rewrite Hsearch. simpl. rewrite Hvars.
  destruct (is_sentinel item_platform); simpl; rewrite Hcrop, Hsum; simpl;
    by rewrite !lookup_insert_eq.
Qed.

End empty_search.

(** C1, at a failing input. Two samples at the same place: the catalog has a
    Sentinel-2 scene for the first and no scene at all for the second. The
    second sample is not recorded as failed: the scene selected for the first
    sample is cropped again and saved as the second sample's image. *)
Theorem empty_search_is_not_recorded_as_failure :
  ∃ search_bbox,
    get_bounding_box (geo Examples.one_scene_world)
      (latitude Examples.aabm) (longitude Examples.aabm) 1000 = Return search_bbox ∧
    catalog_search Examples.one_scene_world search_bbox
      (get_date_range (date Examples.aabm) 15) = Return [] ∧
    errored_ids (get_data Examples.one_scene_world ∅ None [Examples.aabn; Examples.aabm])
      = [] ∧
    store (get_data Examples.one_scene_world ∅ None [Examples.aabn; Examples.aabm])
      !! "aabm.png" = Some [10; 20; 30]%N ∧
    paths_dict (get_data Examples.one_scene_world ∅ None [Examples.aabn; Examples.aabm])
      !! "aabm" = Some "aabm.png" ∧
    calls (get_data Examples.one_scene_world ∅ None [Examples.aabn; Examples.aabm])
      = [SearchCall search_bbox (736192, 736207);
         CropSentinelCall Examples.sentinel_0820 search_bbox;
         SearchCall search_bbox (736813, 736828);
         CropSentinelCall Examples.sentinel_0820 search_bbox].
Proof.
  eexists. split; [vm_compute; reflexivity|].
  split_and!; vm_compute; reflexivity.
Qed.

(** C5. When the crop obtained for a sample sums to zero, the iteration
    appends the sample to the failure list and writes nothing: the image
    directory and [paths_dict] are as before and the sample has no file. *)
Theorem black_image_is_failure `{SortValues} (W : world) st row image_array st' :
  store st !! image_pth row = None →
  acquire_image W row st = (Return image_array, st') →
  pixel_sum image_array = 0%N →
  errored_ids (process_row W st row) = errored_ids st ++ [uid row] ∧
  store (process_row W st row) = store st ∧
  paths_dict (process_row W st row) = paths_dict st ∧
  store (process_row W st row) !! image_pth row = None.
Proof.
  intros Hst Hacq Hsum.
  assert (try_body W row st = (Raise ImageAllBlack, st')) as Hbody.
  { unfold try_body, bind. rewrite Hacq. unfold save_image.
    apply N.eqb_eq in Hsum. by rewrite Hsum. }
  rewrite (process_row_raise W st row _ _ Hst Hbody). simpl.
  apply acquire_image_frame in Hacq as (Hs & Hp & He).
  by rewrite Hs, Hp, He.
Qed.

Lemma black_image_is_failure_witness :
  errored_ids (process_row Examples.black_world Examples.empty_state Examples.aabn)
    = errored_ids Examples.empty_state ++ [uid Examples.aabn] ∧
  store (process_row Examples.black_world Examples.empty_state Examples.aabn)
    = store Examples.empty_state ∧
  paths_dict (process_row Examples.black_world Examples.empty_state Examples.aabn)
    = paths_dict Examples.empty_state ∧
  store (process_row Examples.black_world Examples.empty_state Examples.aabn)
    !! image_pth Examples.aabn = None.
Proof.
  apply (black_image_is_failure Examples.black_world Examples.empty_state
           Examples.aabn [0; 0; 0]%N
           (acquire_image Examples.black_world Examples.aabn Examples.empty_state).2).
  - reflexivity.
  - vm_compute. reflexivity.
  - reflexivity.
Defined.

Section failures.
Context `{SortValues} (W : world).

(* Every new entry of the failure list is the uid of a sample whose [try]
   block raised when its turn came. *)
Lemma errored_ids_attributable st (rows : list sample) u :
  u ∈ errored_ids (acquisition_loop W st rows) →
  u ∈ errored_ids st ∨
  ∃ pre row post e st',
    rows = pre ++ row :: post ∧ uid row = u ∧
    store (acquisition_loop W st pre) !! image_pth row = None ∧
    try_body W row (acquisition_loop W st pre) = (Raise e, st').
Proof.
  induction rows as [|row rows IH] using rev_ind; [by left|].
  rewrite acquisition_loop_snoc.
  assert (u ∈ errored_ids (acquisition_loop W st rows) →
          u ∈ errored_ids st ∨
          ∃ pre row0 post e st',
            rows ++ [row] = pre ++ row0 :: post ∧ uid row0 = u ∧
            store (acquisition_loop W st pre) !! image_pth row0 = None ∧
            try_body W row0 (acquisition_loop W st pre) = (Raise e, st')) as Hold.
  { intros Hu. destruct (IH Hu) as [?|(pre & r & post & e & st' & -> & ? & ? & ?)];
      [by left|right].
    exists pre, r, (post ++ [row]), e, st'. by rewrite <- app_assoc. }
  destruct (process_row_cases W (acquisition_loop W st rows) row)
    as [(im & _ & ->)|[(e & st' & Hst & Hb & ->)|(u0 & st' & _ & Hb & ->)]]; simpl.
  - done.
  - pose proof Hb as Hb'.
    apply try_body_raise_frame in Hb' as (_ & _ & He). rewrite He.
    intros [Hu|Hu]%elem_of_app; [by apply Hold|].
    apply elem_of_cons in Hu as [->|Hu]; [|by apply elem_of_nil in Hu].
    right. by exists rows, row, [], e, st'.
  - apply try_body_return_frame in Hb as (im & _ & _ & _ & He). by rewrite He.
Qed.

(* The [try] block never reads the failure list. *)
Lemma try_body_errored_ids row st f :
  try_body W row (set_errored_ids f st)
    = ((try_body W row st).1, set_errored_ids f (try_body W row st).2).
Proof.
  unfold_M. simpl.
  repeat (case_match; simplify_eq/=); done.
Qed.

(* Neither does an iteration: with another failure list it does the same
   and reports the same new failures. *)
Lemma process_row_errored_ids st row ids :
  ∃ new,
    errored_ids (process_row W st row) = errored_ids st ++ new ∧
    errored_ids (process_row W (set_errored_ids (λ _, ids) st) row) = ids ++ new ∧
    store (process_row W (set_errored_ids (λ _, ids) st) row)
      = store (process_row W st row) ∧
    paths_dict (process_row W (set_errored_ids (λ _, ids) st) row)
      = paths_dict (process_row W st row) ∧
    loop_vars (process_row W (set_errored_ids (λ _, ids) st) row)
      = loop_vars (process_row W st row) ∧
    calls (process_row W (set_errored_ids (λ _, ids) st) row)
      = calls (process_row W st row).
Proof.
  unfold process_row. simpl.
  destruct (store st !! image_pth row) as [im|] eqn:Hex.
  - exists []. simpl. by rewrite !app_nil_r.
  - rewrite try_body_errored_ids.
    destruct (try_body W row st) as [[u|e] st'] eqn:Hbody; simpl.
    + apply try_body_return_frame in Hbody as (im & _ & _ & _ & He).
      exists []. rewrite He. by rewrite !app_nil_r.
    + apply try_body_raise_frame in Hbody as (_ & _ & He).
      exists [uid row]. by rewrite He.
Qed.

End failures.

(** The error handling of the loop (what holds of C6). The loop runs to the
    end of the sample list whatever the [try] blocks
    do: every sample ends in [paths_dict] or in the failure list. A sample
    whose [try] block raises, with any exception, is appended to the failure
    list; it leaves the image directory and [paths_dict] as they were, and the
    samples after it are processed from there. Every entry added to the
    failure list is the uid of a sample whose [try] block raised. What is on
    the failure list has no influence on what an iteration does. *)
Theorem failures_are_collected `{SortValues} (W : world) st (rows : list sample) :
  (∀ row, row ∈ rows →
     uid row ∈ dom (paths_dict (acquisition_loop W st rows)) ∨
     uid row ∈ errored_ids (acquisition_loop W st rows)) ∧
  (∀ pre row post e st',
     rows = pre ++ row :: post →
     store (acquisition_loop W st pre) !! image_pth row = None →
     try_body W row (acquisition_loop W st pre) = (Raise e, st') →
     errored_ids (process_row W (acquisition_loop W st pre) row)
       = errored_ids (acquisition_loop W st pre) ++ [uid row] ∧
     store (process_row W (acquisition_loop W st pre) row)
       = store (acquisition_loop W st pre) ∧
     paths_dict (process_row W (acquisition_loop W st pre) row)
       = paths_dict (acquisition_loop W st pre) ∧
     acquisition_loop W st rows
       = acquisition_loop W (process_row W (acquisition_loop W st pre) row) post ∧
     uid row ∈ errored_ids (acquisition_loop W st rows)) ∧
  (∀ u, u ∈ errored_ids (acquisition_loop W st rows) →
     u ∈ errored_ids st ∨
     ∃ pre row post e st',
       rows = pre ++ row :: post ∧ uid row = u ∧
       store (acquisition_loop W st pre) !! image_pth row = None ∧
       try_body W row (acquisition_loop W st pre) = (Raise e, st')) ∧
  (∀ st0 row ids,
     store (process_row W (set_errored_ids (λ _, ids) st0) row)
       = store (process_row W st0 row) ∧
     paths_dict (process_row W (set_errored_ids (λ _, ids) st0) row)
       = paths_dict (process_row W st0 row) ∧
     loop_vars (process_row W (set_errored_ids (λ _, ids) st0) row)
       = loop_vars (process_row W st0 row) ∧
     calls (process_row W (set_errored_ids (λ _, ids) st0) row)
       = calls (process_row W st0 row)).
Proof.
  split_and!; [| | |intros st0 row ids;
    by destruct (process_row_errored_ids W st0 row ids) as (new & _ & _ & ?)].
  - intros row Hin.
    apply list_elem_of_split in Hin as (pre & post & ->).
    rewrite (acquisition_loop_app W st pre (row :: post)).
    change (acquisition_loop W (acquisition_loop W st pre) (row :: post))
      with (acquisition_loop W (process_row W (acquisition_loop W st pre) row) post).
    destruct (acquisition_loop_mono W
                (process_row W (acquisition_loop W st pre) row) post) as [He Hp].
    destruct (process_row_outcome W (acquisition_loop W st pre) row) as [Hd|Hd];
      [left; by apply Hp|right; by apply He].
  - intros pre row post e st' -> Hst Hbody.
    assert (acquisition_loop W st (pre ++ row :: post)
            = acquisition_loop W (process_row W (acquisition_loop W st pre) row) post)
      as Hloop by (by rewrite acquisition_loop_app).
    rewrite (process_row_raise W _ row e st' Hst Hbody) in *. simpl.
    pose proof Hbody as Hb'.
    apply try_body_raise_frame in Hb' as (Hs & Hp & He).
    rewrite Hs, Hp, He. split_and!; try done.
    rewrite Hloop. apply acquisition_loop_mono. simpl.
    rewrite He. apply elem_of_app. right. left.
  - intros u. apply errored_ids_attributable.
Qed.

(* With the catalog down both samples fail, and both are reported. *)
Lemma failures_are_collected_witness :
  errored_ids (acquisition_loop Examples.down_world Examples.empty_state
                 [Examples.aabn; Examples.aabm]) = ["aabn"; "aabm"] ∧
  uid Examples.aabn ∈ errored_ids
    (acquisition_loop Examples.down_world Examples.empty_state
       [Examples.aabn; Examples.aabm]) ∧
  store (process_row Examples.down_world Examples.empty_state Examples.aabn)
    = store Examples.empty_state.
Proof.
  destruct (failures_are_collected Examples.down_world Examples.empty_state
              [Examples.aabn; Examples.aabm]) as (_ & Hfail & _ & _).
  destruct (Hfail [] Examples.aabn [Examples.aabm] (LibraryError "APIError")
              (try_body Examples.down_world Examples.aabn Examples.empty_state).2)
    as (_ & Hs & _ & _ & Hin).
  - reflexivity.
  - reflexivity.
  - vm_compute. reflexivity.
  - split_and!; [vm_compute; reflexivity|exact Hin|exact Hs].
Defined.

(** C6, at a failing input. The catalog has a Sentinel-2 scene for [aabn] and
    none for [near]; the crop of that scene fails over the box of [aabn].
    Processed alone, [near] is reported as failed and gets no file. Processed
    after [aabn], whose [try] block raises at the crop, [near] is not
    reported: the scene that [aabn] left bound is cropped over the box of
    [near] and saved as its image. The failing sample has changed what
    happens to the other one. *)
Theorem failing_sample_changes_later_sample :
  (∃ st', try_body FailureExamples.crop_fails_world Examples.aabn Examples.empty_state
            = (Raise (LibraryError "RasterioIOError"), st')) ∧
  errored_ids (get_data FailureExamples.crop_fails_world ∅ None
                 [Examples.aabn; FailureExamples.near]) = ["aabn"] ∧
  store (get_data FailureExamples.crop_fails_world ∅ None
           [Examples.aabn; FailureExamples.near]) !! "near.png"
    = Some [10; 20; 30]%N ∧
  paths_dict (get_data FailureExamples.crop_fails_world ∅ None
                [Examples.aabn; FailureExamples.near]) !! "near" = Some "near.png" ∧
  errored_ids (get_data FailureExamples.crop_fails_world ∅ None
                 [FailureExamples.near]) = ["near"] ∧
  store (get_data FailureExamples.crop_fails_world ∅ None
           [FailureExamples.near]) !! "near.png" = None ∧
  paths_dict (get_data FailureExamples.crop_fails_world ∅ None
                [FailureExamples.near]) !! "near" = None.
Proof.
  split_and!; try (vm_compute; reflexivity).
  eexists. vm_compute. reflexivity.
Qed.

(** C7. A sample whose image file is already in the directory is handled
    without any request: the iteration only records the path in [paths_dict].
    When every sample of the list has its file, a run of the loop sends no
    request, leaves the directory as it is and records every sample in
    [paths_dict] and none as failed; so does a second run after it. *)
Theorem cached_samples_make_no_calls `{SortValues} (W : world) :
  (∀ st row,
     is_Some (store st !! image_pth row) →
     calls (process_row W st row) = calls st ∧
     store (process_row W st row) = store st ∧
     errored_ids (process_row W st row) = errored_ids st ∧
     loop_vars (process_row W st row) = loop_vars st ∧
     paths_dict (process_row W st row)
       = <[uid row := image_pth row]> (paths_dict st)) ∧
  (∀ st (rows : list sample),
     (∀ row, row ∈ rows → is_Some (store st !! image_pth row)) →
     calls (acquisition_loop W st rows) = calls st ∧
     store (acquisition_loop W st rows) = store st ∧
     errored_ids (acquisition_loop W st rows) = errored_ids st ∧
     (∀ row, row ∈ rows →
        paths_dict (acquisition_loop W st rows) !! uid row = Some (image_pth row)) ∧
     calls (acquisition_loop W (acquisition_loop W st rows) rows) = calls st ∧
     store (acquisition_loop W (acquisition_loop W st rows) rows) = store st ∧
     errored_ids (acquisition_loop W (acquisition_loop W st rows) rows)
       = errored_ids st).
Proof.
  assert (∀ st row, is_Some (store st !! image_pth row) →
            process_row W st row
              = set_paths_dict (insert (uid row) (image_pth row)) st) as Hstep.
  { intros st row [im Him]. by apply (process_row_cached W st row im). }
  assert (∀ (rows : list sample) st,
            (∀ row, row ∈ rows → is_Some (store st !! image_pth row)) →
            calls (acquisition_loop W st rows) = calls st ∧
            store (acquisition_loop W st rows) = store st ∧
            errored_ids (acquisition_loop W st rows) = errored_ids st ∧
            (∀ row, row ∈ rows →
               paths_dict (acquisition_loop W st rows) !! uid row
                 = Some (image_pth row))) as Hrun.
  { induction rows as [|row rows IH] using rev_ind; intros st Hall.
    - split_and!; try done. intros row Hin. by apply elem_of_nil in Hin.
    - rewrite acquisition_loop_snoc.
      destruct (IH st) as (Hc & Hs & He & Hp).
      { intros r Hr. apply Hall, elem_of_app. by left. }
      rewrite Hstep; simpl.
      2:{ rewrite Hs. apply Hall, elem_of_app. right. left. }
      split_and!; try done.
      intros r [Hr|Hr]%elem_of_app.
      + destruct (decide (uid row = uid r)) as [Heq|Hne].
        * rewrite Heq, lookup_insert_eq. unfold image_pth. by rewrite Heq.
        * rewrite lookup_insert_ne by done. by apply Hp.
      + apply elem_of_cons in Hr as [->|Hr]; [|by apply elem_of_nil in Hr].
        by rewrite lookup_insert_eq. }
  split.
  - intros st row Hsome. by rewrite (Hstep st row Hsome).
  - intros st rows Hall.
    destruct (Hrun rows st Hall) as (Hc & Hs & He & Hp).
    destruct (Hrun rows (acquisition_loop W st rows)) as (Hc2 & Hs2 & He2 & _).
    { intros row Hin. rewrite Hs. by apply Hall. }
    rewrite Hc2, Hs2, He2. by split_and!.
Qed.

Lemma cached_samples_make_no_calls_witness :
  calls (acquisition_loop Examples.one_scene_world
           (get_data Examples.one_scene_world ∅ None [Examples.aabn; Examples.aabm])
           [Examples.aabn; Examples.aabm])
    = calls (get_data Examples.one_scene_world ∅ None [Examples.aabn; Examples.aabm]) ∧
  store (acquisition_loop Examples.one_scene_world
           (get_data Examples.one_scene_world ∅ None [Examples.aabn; Examples.aabm])
           [Examples.aabn; Examples.aabm])
    = store (get_data Examples.one_scene_world ∅ None [Examples.aabn; Examples.aabm]).
Proof.
  destruct (cached_samples_make_no_calls Examples.one_scene_world) as [_ Hrun].
  destruct (Hrun (get_data Examples.one_scene_world ∅ None [Examples.aabn; Examples.aabm])
              [Examples.aabn; Examples.aabm]) as (Hc & Hs & _).
  - intros row Hin.
    apply elem_of_cons in Hin as [->|Hin];
      [|apply elem_of_cons in Hin as [->|Hin]; [|by apply elem_of_nil in Hin]];
      vm_compute; eauto.
  - by split.
Defined.

(** ** Claims about [get_bounding_box] *)

(** C8 (as the code has it). [get_bounding_box] checks nothing itself: it
    raises exactly when the geodesic library raises, in building the distance
    or in one of the four destination calls, and then with the library's
    exception; when these calls return, it returns
    [[west.longitude, south.latitude, east.longitude, north.latitude]]. *)
Theorem get_bounding_box_raises_with_library (G : geodesy) lat lon m :
  (∀ e, get_bounding_box G lat lon m = Raise e →
     distance G m = Raise e ∨
     ∃ d, distance G m = Return d ∧
          (destination G d (lat, lon) 180 = Raise e ∨
           destination G d (lat, lon) 270 = Raise e ∨
           destination G d (lat, lon) 0 = Raise e ∨
           destination G d (lat, lon) 90 = Raise e)) ∧
  (raises (distance G m) → raises (get_bounding_box G lat lon m)) ∧
  (∀ d, distance G m = Return d →
        raises (destination G d (lat, lon) 180) ∨
        raises (destination G d (lat, lon) 270) ∨
        raises (destination G d (lat, lon) 0) ∨
        raises (destination G d (lat, lon) 90) →
        raises (get_bounding_box G lat lon m)) ∧
  (∀ d south west north east,
     distance G m = Return d →
     destination G d (lat, lon) 180 = Return south →
     destination G d (lat, lon) 270 = Return west →
     destination G d (lat, lon) 0 = Return north →
     destination G d (lat, lon) 90 = Return east →
     get_bounding_box G lat lon m
       = Return {| min_long := west.2; min_lat := south.1;
                   max_long := east.2; max_lat := north.1 |}).
Proof.
  unfold get_bounding_box, raises, rbind. split_and!.
  - intros e Heq.
    destruct (distance G m) as [d|e0]; [|left; congruence].
    right. exists d. split; [done|].
    destruct (destination G d (lat, lon) 180); [|left; congruence].
    destruct (destination G d (lat, lon) 270); [|right; left; congruence].
    destruct (destination G d (lat, lon) 0); [|right; right; left; congruence].
    destruct (destination G d (lat, lon) 90); [done|right; right; right; congruence].
  - intros [e ->]. by exists e.
  - intros d -> Hr.
    destruct (destination G d (lat, lon) 180) as [s|e1]; [|by exists e1].
    destruct (destination G d (lat, lon) 270) as [w|e2]; [|by exists e2].
    destruct (destination G d (lat, lon) 0) as [n|e3]; [|by exists e3].
    destruct (destination G d (lat, lon) 90) as [e|e4]; [|by exists e4].
    destruct Hr as [[? ?]|[[? ?]|[[? ?]|[? ?]]]]; done.
  - by intros d south west north east -> -> -> -> ->.
Qed.

Lemma get_bounding_box_raises_with_library_witness :
  get_bounding_box Examples.flat_geodesy 0 0 111000
    = Return {| min_long := (0 - 111000 / 111000)%Q; min_lat := (0 - 111000 / 111000)%Q;
                max_long := (0 + 111000 / 111000)%Q; max_lat := (0 + 111000 / 111000)%Q |}.
Proof.
  destruct (get_bounding_box_raises_with_library Examples.flat_geodesy 0 0 111000)
    as (_ & _ & _ & Hret).
  apply (Hret 111000%Q
           ((0 - 111000 / 111000)%Q, 0%Q) (0%Q, (0 - 111000 / 111000)%Q)
           ((0 + 111000 / 111000)%Q, 0%Q) (0%Q, (0 + 111000 / 111000)%Q));
    reflexivity.
Defined.

(** C8, as stated: with a radius of zero, and with a geodesic routine that
    accepts it, no error is raised and the box is the point itself. *)
Lemma get_bounding_box_zero_radius :
  get_bounding_box Examples.flat_geodesy
      (latitude Examples.aabn) (longitude Examples.aabn) 0
    = Return {| min_long := (longitude Examples.aabn - 0 / 111000)%Q;
                min_lat := (latitude Examples.aabn - 0 / 111000)%Q;
                max_long := (longitude Examples.aabn + 0 / 111000)%Q;
                max_lat := (latitude Examples.aabn + 0 / 111000)%Q |} ∧
  ¬ raises (get_bounding_box Examples.flat_geodesy
              (latitude Examples.aabn) (longitude Examples.aabn) 0).
Proof.
  split; [reflexivity|]. intros [e He]. discriminate He.
Qed.

(** ** Claims about the removal of black images *)

Lemma elem_of_listdir (images : gmap string raster) i :
  i ∈ listdir images ↔ is_Some (images !! i).
Proof.
  unfold listdir. rewrite list_elem_of_fmap. split.
  - intros ([k im] & -> & Hin). apply elem_of_map_to_list in Hin. by exists im.
  - intros [im Him]. exists (i, im). split; [done|]. by apply elem_of_map_to_list.
Qed.

Lemma NoDup_listdir (images : gmap string raster) : NoDup (listdir images).
Proof. apply NoDup_fst_map_to_list. Qed.

Lemma filter_none {A} (P : A → Prop) `{∀ x, Decision (P x)} (l : list A) :
  (∀ x, x ∈ l → ¬ P x) → filter P l = [].
Proof.
  induction l as [|x l IH]; intros Hall; [done|].
  rewrite filter_cons. destruct (decide (P x)) as [Hp|_].
  - exfalso. apply (Hall x); [left|done].
  - apply IH. intros y Hy. apply Hall. by right.
Qed.

(* On a listing of files that are all there, the scan reads every file and
   collects the black ones in order. *)
Lemma black_scan_listed (images : gmap string raster) (imgs black_pngs : list string) :
  (∀ i, i ∈ imgs → is_Some (images !! i)) →
  black_scan images imgs black_pngs
    = Return (black_pngs ++ filter (λ i, is_black images i) imgs).
Proof.
  revert black_pngs. induction imgs as [|i imgs IH]; intros black_pngs Hall; simpl.
  - by rewrite app_nil_r.
  - destruct (Hall i) as [im Him]; [left|].
    rewrite Him, IH by (intros j Hj; apply Hall; by right).
    assert (is_black images i = (pixel_sum im =? 0)%N) as Hb.
    { unfold is_black. by rewrite Him. }
    rewrite filter_cons.
    destruct (decide (is_black images i)) as [Hd|Hd]; rewrite Hb in Hd;
      destruct (pixel_sum im =? 0)%N; try done.
    by rewrite <- app_assoc.
Qed.

(* On a listing that names a file no longer there, the scan raises. *)
Lemma black_scan_stale (images : gmap string raster) (imgs black_pngs : list string) i :
  i ∈ imgs → images !! i = None →
  black_scan images imgs black_pngs = Raise FileNotFoundError.
Proof.
  revert black_pngs. induction imgs as [|j imgs IH]; intros black_pngs Hin Hnone.
  - by apply elem_of_nil in Hin.
  - simpl. destruct (images !! j) as [im|] eqn:Hj; [|done].
    apply elem_of_cons in Hin as [->|Hin]; [congruence|]. by apply IH.
Qed.

Lemma remove_files_spec (black_pngs : list string) (images : gmap string raster) :
  NoDup black_pngs →
  (∀ i, i ∈ black_pngs → is_Some (images !! i)) →
  ∃ images',
    remove_files black_pngs images = Return images' ∧
    (∀ k, images' !! k = if decide (k ∈ black_pngs) then None else images !! k) ∧
    size images = (length black_pngs + size images')%nat.
Proof.
  revert images. induction black_pngs as [|i rest IH]; intros images Hnd Hall; simpl.
  - exists images. by split_and!.
  - apply NoDup_cons in Hnd as [Hni Hnd].
    destruct (Hall i) as [im Him]; [left|]. rewrite Him.
    destruct (IH (delete i images) Hnd) as (images' & Hrem & Hlook & Hsize).
    { intros j Hj. rewrite lookup_delete_ne by (intros ->; done).
      apply Hall. by right. }
    exists images'. split_and!; [done| |].
    + intros k. rewrite Hlook.
      destruct (decide (k = i)) as [->|Hne].
      * rewrite lookup_delete_eq.
        rewrite (decide_True (P := i ∈ i :: rest)) by left.
        by destruct (decide (i ∈ rest)).
      * rewrite lookup_delete_ne by done.
        destruct (decide (k ∈ rest)) as [Hk|Hk].
        -- rewrite decide_True; [done|by right].
        -- rewrite decide_False; [done|].
           intros [?|?]%elem_of_cons; done.
    + rewrite <- Hsize.
      rewrite <- (insert_delete_id images i im Him) at 1.
      rewrite map_size_insert_None by apply lookup_delete_eq. done.
Qed.




(** * Further properties *)

(** ** More on [select_best_image] *)

Lemma elem_of_candidates_perm (items items' : list item) lat lon it :
  items ≡ₚ items' →
  it ∈ candidates items lat lon ↔ it ∈ candidates items' lat lon.
Proof.
  intros Hp. rewrite !elem_of_candidates.
  assert (∀ x, x ∈ items ↔ x ∈ items') as Hmem by (intros x; by rewrite Hp).
  rewrite Hmem. split.
  - intros (Hin & Hc & Himp). split_and!; try done.
    intros (s & Hs & Hcs & Hsen). apply Himp. exists s. by rewrite Hmem.
  - intros (Hin & Hc & Himp). split_and!; try done.
    intros (s & Hs & Hcs & Hsen). apply Himp. exists s. by rewrite <- Hmem.
Qed.

(** X1. When some candidate contains the sample point and no containing
    candidate is of the Sentinel family, [select_best_image] falls back to
    the other candidates: it returns a containing candidate that is not of
    the Sentinel family, with the least signed difference
    [date - capture date] among all containing candidates. A Sentinel scene
    that does not contain the point does not prevent this. *)
Theorem select_falls_back_to_landsat `{SortValues} (items : list item) date lat lon :
  (∃ c, c ∈ items ∧ contains_sample_point lat lon c = true) →
  (∀ s, s ∈ items → contains_sample_point lat lon s = true → sentinel s = false) →
  ∃ best,
    select_best_image items date lat lon
      = Return (Selected best (platform best) (datetime best)) ∧
    best ∈ items ∧
    contains_sample_point lat lon best = true ∧
    is_sentinel (platform best) = false ∧
    ∀ it, it ∈ items → contains_sample_point lat lon it = true →
          date - datetime best ≤ date - datetime it.
Proof.
  intros (c & Hc & Hcc) Hland.
  destruct (select_best_image_cases items date lat lon)
    as [[Hnone _]|(best & Hsel & Hbest & Hmin)].
  - intros ->. by apply elem_of_nil in Hc.
  - specialize (Hnone c Hc). congruence.
  - exists best. split; [done|].
    apply elem_of_candidates in Hbest as (Hin & Hbc & _).
    split_and!; try done; [by apply Hland|].
    intros it Hit Hic. apply (Hmin it). apply elem_of_candidates.
    split_and!; try done.
    intros (s & Hs & Hsc & Hsen). rewrite (Hland s Hs Hsc) in Hsen. done.
Qed.

(* The spec's second example: a Landsat scene of 2016-08-18 over the point,
   a Sentinel-2 scene elsewhere. *)
Lemma select_falls_back_to_landsat_witness :
  ∃ best,
    select_best_image [Examples.sentinel_far; Examples.landsat_0818] 736207
        (latitude Examples.aabn) (longitude Examples.aabn)
      = Return (Selected best (platform best) (datetime best)) ∧
    best ∈ [Examples.sentinel_far; Examples.landsat_0818] ∧
    contains_sample_point (latitude Examples.aabn) (longitude Examples.aabn) best = true ∧
    is_sentinel (platform best) = false ∧
    ∀ it, it ∈ [Examples.sentinel_far; Examples.landsat_0818] →
          contains_sample_point (latitude Examples.aabn) (longitude Examples.aabn) it = true →
          736207 - datetime best ≤ 736207 - datetime it.
Proof.
  apply select_falls_back_to_landsat.
  - exists Examples.landsat_0818. split; [right; left|reflexivity].
  - intros s Hs.
    apply elem_of_cons in Hs as [->|Hs];
      [|apply elem_of_cons in Hs as [->|Hs]; [|by apply elem_of_nil in Hs]].
    + vm_compute. discriminate.
    + reflexivity.
Defined.

(** X2. A scene returned by [select_best_image] is one of the candidates it
    was given and contains the sample point; the platform and the date
    returned with it are its own; and when it is not of the Sentinel family,
    no candidate containing the point is. *)
Theorem select_result_sound `{SortValues} (items : list item) date lat lon
    best item_platform item_date :
  select_best_image items date lat lon
    = Return (Selected best item_platform item_date) →
  best ∈ items ∧
  contains_sample_point lat lon best = true ∧
  item_platform = platform best ∧
  item_date = datetime best ∧
  (sentinel best = false →
   ∀ it, it ∈ items → contains_sample_point lat lon it = true → sentinel it = false).
Proof.
  intros Hsel.
  destruct items as [|i0 items'] eqn:Hitems; [done|]. rewrite <- Hitems in *.
  destruct (select_best_image_cases items date lat lon)
    as [[_ Hno]|(b & Hb & Hcand & _)].
  - by rewrite Hitems.
  - congruence.
  - rewrite Hb in Hsel. simplify_eq.
    apply elem_of_candidates in Hcand as (Hin & Hc & Himp).
    split_and!; try done.
    intros Hns it Hit Hic. destruct (sentinel it) eqn:Hsen; [|done].
    rewrite Himp in Hns; [done|]. by exists it.
Qed.

Lemma select_result_sound_witness :
  Examples.sentinel_0820 ∈ [Examples.landsat_0825; Examples.sentinel_0820] ∧
  contains_sample_point (latitude Examples.aabn) (longitude Examples.aabn)
    Examples.sentinel_0820 = true ∧
  "Sentinel-2A" = platform Examples.sentinel_0820 ∧
  736196 = datetime Examples.sentinel_0820 ∧
  (sentinel Examples.sentinel_0820 = false →
   ∀ it, it ∈ [Examples.landsat_0825; Examples.sentinel_0820] →
         contains_sample_point (latitude Examples.aabn) (longitude Examples.aabn) it = true →
         sentinel it = false).
Proof.
  apply (select_result_sound [Examples.landsat_0825; Examples.sentinel_0820] 736207).
  reflexivity.
Defined.

(** X3. On a candidate list with at least one item, [select_best_image]
    returns the empty result exactly when no candidate contains the sample
    point. *)
Theorem select_empty_result_iff `{SortValues} (items : list item) date lat lon :
  items ≠ [] →
  (select_best_image items date lat lon = Return NoSelection ↔
   ∀ it, it ∈ items → contains_sample_point lat lon it = false).
Proof.
  intros Hne.
  destruct (select_best_image_cases items date lat lon Hne)
    as [[Hnone Hsel]|(best & Hsel & Hbest & _)].
  - by split.
  - split; [congruence|].
    intros Hnone. apply elem_of_candidates in Hbest as (Hin & Hc & _).
    specialize (Hnone best Hin). congruence.
Qed.

Lemma select_empty_result_iff_witness :
  select_best_image [Examples.sentinel_far; Examples.landsat_0818] 736207
      (latitude Examples.aabn) (longitude Examples.aabn) = Return NoSelection ↔
  ∀ it, it ∈ [Examples.sentinel_far; Examples.landsat_0818] →
        contains_sample_point (latitude Examples.aabn) (longitude Examples.aabn) it = false.
Proof.
  apply (select_empty_result_iff [Examples.sentinel_far; Examples.landsat_0818]).
  discriminate.
Defined.

(** X4. The order of the candidates does not matter, nor does the way
    [sort_values] orders rows of equal key: on two lists with the same
    candidates, and with any two sorts, both calls raise, or both return the
    empty result, or both return a scene, and then the two scenes have the
    same capture date and are of the same family. *)
Theorem select_order_independent (S1 S2 : SortValues) (items items' : list item)
    date lat lon :
  items ≡ₚ items' →
  match @select_best_image S1 items date lat lon,
        @select_best_image S2 items' date lat lon with
  | Raise e1, Raise e2 => e1 = e2
  | Return NoSelection, Return NoSelection => True
  | Return (Selected b1 _ d1), Return (Selected b2 _ d2) =>
      d1 = d2 ∧ sentinel b1 = sentinel b2
  | _, _ => False
  end.
Proof.
  intros Hp.
  destruct items as [|i0 items0] eqn:Hitems.
  { apply Permutation_nil_l in Hp as <-. done. }
  rewrite <- Hitems in *.
  assert (items ≠ []) as Hne by (by rewrite Hitems).
  assert (items' ≠ []) as Hne'.
  { intros ->. apply Permutation_nil_r in Hp. done. }
  assert (∀ x, x ∈ items ↔ x ∈ items') as Hmem by (intros x; by rewrite Hp).
  destruct (@select_best_image_cases S1 items date lat lon Hne)
    as [[Hnone ->]|(b1 & -> & Hb1 & Hmin1)];
  destruct (@select_best_image_cases S2 items' date lat lon Hne')
    as [[Hnone' ->]|(b2 & -> & Hb2 & Hmin2)]; try done.
  - apply elem_of_candidates in Hb2 as (Hin & Hc & _).
    apply Hmem in Hin. specialize (Hnone b2 Hin). congruence.
  - apply elem_of_candidates in Hb1 as (Hin & Hc & _).
    apply Hmem in Hin. specialize (Hnone' b1 Hin). congruence.
  - pose proof (Hmin1 b2) as H12. pose proof (Hmin2 b1) as H21.
    rewrite (elem_of_candidates_perm items items' lat lon) in H12 by done.
    rewrite <- (elem_of_candidates_perm items items' lat lon) in H21 by done.
    specialize (H12 Hb2). specialize (H21 Hb1). unfold time_diff in *.
    split; [lia|].
    apply elem_of_candidates in Hb1 as (Hin1 & Hc1 & Himp1).
    apply elem_of_candidates in Hb2 as (Hin2 & Hc2 & Himp2).
    destruct (sentinel b1) eqn:Hs1, (sentinel b2) eqn:Hs2; try done.
    + symmetry. apply Himp2. exists b1. by rewrite <- Hmem.
    + apply Himp1. exists b2. by rewrite Hmem.
Qed.

Lemma select_order_independent_witness :
  match select_best_image [Examples.landsat_0818; Examples.sentinel_0820; Examples.landsat_0825]
          736207 (latitude Examples.aabn) (longitude Examples.aabn),
        select_best_image [Examples.landsat_0825; Examples.landsat_0818; Examples.sentinel_0820]
          736207 (latitude Examples.aabn) (longitude Examples.aabn) with
  | Raise e1, Raise e2 => e1 = e2
  | Return NoSelection, Return NoSelection => True
  | Return (Selected b1 _ d1), Return (Selected b2 _ d2) =>
      d1 = d2 ∧ sentinel b1 = sentinel b2
  | _, _ => False
  end.
Proof.
  apply (select_order_independent merge_sort_values merge_sort_values).
  symmetry.
  apply Permutation_cons_append
    with (l := [Examples.landsat_0818; Examples.sentinel_0820])
         (x := Examples.landsat_0825).
Defined.

(** ** More on the acquisition loop *)

Section loop_invariants.
Context `{SortValues} (W : world).

(* What one iteration does to the image directory. *)
Lemma process_row_store st row :
  store (process_row W st row) = store st ∨
  ∃ image_array,
    store st !! image_pth row = None ∧
    pixel_sum image_array ≠ 0%N ∧
    store (process_row W st row) = <[image_pth row := image_array]> (store st).
Proof.
  destruct (process_row_cases W st row)
    as [(im & _ & ->)|[(e & st' & _ & Hb & ->)|(u0 & st' & Hst & Hb & ->)]]; simpl.
  - by left.
  - left. by apply try_body_raise_frame in Hb as (-> & _ & _).
  - right. apply try_body_return_frame in Hb as (im & Hsum & Hs & _).
    by exists im.
Qed.

Lemma process_row_store_mono st row name im :
  store st !! name = Some im →
  store (process_row W st row) !! name = Some im.
Proof.
  intros Hname.
  destruct (process_row_store st row) as [->|(im' & Hnone & _ & ->)]; [done|].
  rewrite lookup_insert_ne; [done|]. intros <-. congruence.
Qed.

Lemma acquisition_loop_store_mono st (rows : list sample) name im :
  store st !! name = Some im →
  store (acquisition_loop W st rows) !! name = Some im.
Proof.
  revert st. induction rows as [|row rows IH]; intros st Hname; [done|].
  apply (IH (process_row W st row)). by apply process_row_store_mono.
Qed.

Lemma acquisition_loop_store_new st (rows : list sample) name im :
  store (acquisition_loop W st rows) !! name = Some im →
  store st !! name = Some im ∨
  (store st !! name = None ∧ pixel_sum im ≠ 0%N ∧
   ∃ row, row ∈ rows ∧ name = image_pth row).
Proof.
  induction rows as [|row rows IH] using rev_ind; [by left|].
  rewrite acquisition_loop_snoc.
  destruct (process_row_store (acquisition_loop W st rows) row)
    as [->|(im' & Hnone & Hsum & ->)].
  - intros Hl. destruct (IH Hl) as [?|(? & ? & r & Hr & ?)]; [by left|right].
    split_and!; try done. exists r. split; [|done]. apply elem_of_app. by left.
  - destruct (decide (name = image_pth row)) as [->|Hne].
    + rewrite lookup_insert_eq. intros [= <-]. right.
      split_and!; try done.
      * destruct (store st !! image_pth row) as [im0|] eqn:Hst; [|done].
        apply (acquisition_loop_store_mono st rows) in Hst. congruence.
      * exists row. split; [|done]. apply elem_of_app. right. left.
    + rewrite lookup_insert_ne by done.
      intros Hl. destruct (IH Hl) as [?|(? & ? & r & Hr & ?)]; [by left|right].
      split_and!; try done. exists r. split; [|done]. apply elem_of_app. by left.
Qed.

(* What one iteration does to [paths_dict]. *)
Lemma process_row_paths st row u p :
  paths_dict (process_row W st row) !! u = Some p →
  paths_dict st !! u = Some p ∨
  (u = uid row ∧ p = image_pth row ∧
   is_Some (store (process_row W st row) !! image_pth row)).
Proof.
  destruct (process_row_cases W st row)
    as [(im & Hst & ->)|[(e & st' & _ & Hb & ->)|(u0 & st' & Hst & Hb & ->)]]; simpl.
  - destruct (decide (uid row = u)) as [<-|Hne].
    + rewrite lookup_insert_eq. intros [= <-]. right. by rewrite Hst.
    + rewrite lookup_insert_ne by done. by left.
  - apply try_body_raise_frame in Hb as (_ & -> & _). by left.
  - apply try_body_return_frame in Hb as (im & _ & -> & -> & _).
    destruct (decide (uid row = u)) as [<-|Hne].
    + rewrite lookup_insert_eq. intros [= <-]. right.
      by rewrite lookup_insert_eq.
    + rewrite lookup_insert_ne by done. by left.
Qed.

Lemma acquisition_loop_paths st (rows : list sample) u p :
  paths_dict (acquisition_loop W st rows) !! u = Some p →
  paths_dict st !! u = Some p ∨
  (p = u +:+ ".png" ∧
   is_Some (store (acquisition_loop W st rows) !! p) ∧
   ∃ row, row ∈ rows ∧ uid row = u).
Proof.
  induction rows as [|row rows IH] using rev_ind; [by left|].
  rewrite acquisition_loop_snoc. intros Hl.
  apply process_row_paths in Hl as [Hold|(-> & -> & Hfile)].
  - destruct (IH Hold) as [?|(-> & [im Him] & r & Hr & Hu)]; [by left|right].
    split_and!; try done.
    + exists im. by apply process_row_store_mono.
    + exists r. split; [|done]. apply elem_of_app. by left.
  - right. split_and!; try done.
    exists row. split; [|done]. apply elem_of_app. right. left.
Qed.

End loop_invariants.

(** X5. The loop never deletes an image file and never writes over one: a
    file that is in the directory before the loop is there, unchanged, after
    it. *)
Theorem loop_keeps_existing_files `{SortValues} (W : world) st
    (rows : list sample) name im :
  store st !! name = Some im →
  store (acquisition_loop W st rows) !! name = Some im.
Proof. apply acquisition_loop_store_mono. Qed.

Lemma loop_keeps_existing_files_witness :
  store (acquisition_loop Examples.black_world
           (get_data Examples.one_scene_world ∅ None [Examples.aabn])
           [Examples.aabn; Examples.aabm]) !! "aabn.png" = Some [10; 20; 30]%N.
Proof.
  apply loop_keeps_existing_files. vm_compute. reflexivity.
Defined.

(** X6. Every file the loop adds to the directory is the image of one of the
    samples of the list, named after its uid, and is not black. *)
Theorem loop_writes_only_sample_images `{SortValues} (W : world) st
    (rows : list sample) name im :
  store (acquisition_loop W st rows) !! name = Some im →
  store st !! name = None →
  pixel_sum im ≠ 0%N ∧ ∃ row, row ∈ rows ∧ name = uid row +:+ ".png".
Proof.
  intros Hl Hnone.
  apply acquisition_loop_store_new in Hl as [?|(_ & ? & ?)]; [congruence|done].
Qed.

Lemma loop_writes_only_sample_images_witness :
  pixel_sum [10; 20; 30]%N ≠ 0%N ∧
  ∃ row, row ∈ [Examples.aabn; Examples.aabm] ∧ "aabn.png" = uid row +:+ ".png".
Proof.
  apply (loop_writes_only_sample_images Examples.one_scene_world
           Examples.empty_state [Examples.aabn; Examples.aabm] "aabn.png").
  - vm_compute. reflexivity.
  - reflexivity.
Defined.

(* A directory without black images is left as it is by the removal pass. *)
Lemma scrub_clean (images : gmap string raster) :
  (∀ i im, images !! i = Some im → pixel_sum im ≠ 0%N) →
  scrub images = Return (0%nat, images).
Proof.
  intros Hclean. unfold scrub.
  rewrite black_scan_listed by (intros i; apply elem_of_listdir).
  rewrite (filter_none (λ i, is_black images i)); [done|].
  intros i _ Hb. unfold is_black in Hb.
  destruct (images !! i) as [im|] eqn:Him; [|done].
  apply Is_true_true, N.eqb_eq in Hb. by apply (Hclean i im).
Qed.

(** X7. The black-image check of the loop and the removal pass agree: when
    the directory holds no black image before the loop, the removal pass run
    after the loop removes nothing. *)
Theorem scrub_after_loop_removes_nothing `{SortValues} (W : world) st
    (rows : list sample) :
  (∀ i im, store st !! i = Some im → pixel_sum im ≠ 0%N) →
  scrub (store (acquisition_loop W st rows))
    = Return (0%nat, store (acquisition_loop W st rows)).
Proof.
  intros Hclean. apply scrub_clean. intros i im Hl.
  apply acquisition_loop_store_new in Hl as [Hold|(_ & Hsum & _)]; [|done].
  by apply (Hclean i im).
Qed.

Lemma scrub_after_loop_removes_nothing_witness :
  scrub (store (acquisition_loop Examples.one_scene_world Examples.empty_state
                  [Examples.aabn; Examples.aabm]))
    = Return (0%nat, store (acquisition_loop Examples.one_scene_world
                              Examples.empty_state [Examples.aabn; Examples.aabm])).
Proof.
  apply scrub_after_loop_removes_nothing.
  intros i im Hl. simpl in Hl. by rewrite lookup_empty in Hl.
Defined.

(** X8. After the cell has run, every entry of [paths_dict] belongs to a
    sample of the list, is the path [uid.png], and names a file that is in
    the directory. *)
Theorem paths_dict_names_existing_files `{SortValues} (W : world)
    (images : gmap string raster) vars (rows : list sample) u p :
  paths_dict (get_data W images vars rows) !! u = Some p →
  p = u +:+ ".png" ∧
  is_Some (store (get_data W images vars rows) !! p) ∧
  ∃ row, row ∈ rows ∧ uid row = u.
Proof.
  unfold get_data. intros Hl.
  apply acquisition_loop_paths in Hl as [Hold|?]; [|done].
  simpl in Hold. by rewrite lookup_empty in Hold.
Qed.

Lemma paths_dict_names_existing_files_witness :
  "aabm.png" = "aabm" +:+ ".png" ∧
  is_Some (store (get_data Examples.one_scene_world ∅ None
                    [Examples.aabn; Examples.aabm]) !! "aabm.png") ∧
  ∃ row, row ∈ [Examples.aabn; Examples.aabm] ∧ uid row = "aabm".
Proof.
  apply (paths_dict_names_existing_files Examples.one_scene_world ∅ None
           [Examples.aabn; Examples.aabm] "aabm" "aabm.png").
  vm_compute. reflexivity.
Defined.

Section loop_requests.
Context `{SortValues} (W : world).

(* The requests of one iteration: none, or a search over the sample's 1000 m
   box and 15-day window, or that search followed by one crop over the same
   box. *)
Lemma process_row_calls st row :
  calls (process_row W st row) = calls st ∨
  ∃ b,
    get_bounding_box (geo W) (latitude row) (longitude row) 1000 = Return b ∧
    (calls (process_row W st row)
       = calls st ++ [SearchCall b (date row - 15, date row)] ∨
     ∃ it,
       calls (process_row W st row)
         = calls st ++ [SearchCall b (date row - 15, date row);
                        CropSentinelCall it b] ∨
       calls (process_row W st row)
         = calls st ++ [SearchCall b (date row - 15, date row);
                        CropLandsatCall it b]).
Proof.
  unfold process_row.
  destruct (store st !! image_pth row); [by left|].
  unfold_M. unfold get_date_range.
  destruct (get_bounding_box (geo W) (latitude row) (longitude row) 1000)
    as [b|e] eqn:Hbox; simpl; [|by left].
  right. exists b. split; [done|].
  repeat (case_match; simplify_eq/=);
    rewrite <- ?app_assoc; simpl; eauto.
Qed.

End loop_requests.

(** X9. A run of the cell sends at most two requests per sample of the list.
    Every request in its log is made for a sample of the list: a search over
    that sample's 1000 m box and the 15 days up to its date, or a crop over
    that sample's 1000 m box. *)
Theorem loop_requests_are_per_sample `{SortValues} (W : world)
    (images : gmap string raster) vars (rows : list sample) :
  (length (calls (get_data W images vars rows)) ≤ 2 * length rows)%nat ∧
  ∀ c, c ∈ calls (get_data W images vars rows) →
    ∃ row b,
      row ∈ rows ∧
      get_bounding_box (geo W) (latitude row) (longitude row) 1000 = Return b ∧
      (c = SearchCall b (date row - 15, date row) ∨
       ∃ it, c = CropSentinelCall it b ∨ c = CropLandsatCall it b).
Proof.
  unfold get_data.
  set (st0 := {| store := images; paths_dict := ∅; errored_ids := [];
                 loop_vars := vars; calls := [] |}).
  induction rows as [|row rows [IHlen IHin]] using rev_ind.
  - split; [done|]. intros c Hc. by apply elem_of_nil in Hc.
  - rewrite acquisition_loop_snoc, length_app. simpl.
    destruct (process_row_calls W (acquisition_loop W st0 rows) row)
      as [->|(b & Hbox & Hcalls)].
    + split; [lia|]. intros c Hc.
      destruct (IHin c Hc) as (r & b & Hr & ?). exists r, b.
      split; [|done]. apply elem_of_app. by left.
    + assert (row ∈ rows ++ [row]) as Hrow by (apply elem_of_app; right; left).
      assert (∀ c, c ∈ calls (acquisition_loop W st0 rows) →
                ∃ r b0, r ∈ rows ++ [row] ∧
                  get_bounding_box (geo W) (latitude r) (longitude r) 1000
                    = Return b0 ∧
                  (c = SearchCall b0 (date r - 15, date r) ∨
                   ∃ it, c = CropSentinelCall it b0 ∨ c = CropLandsatCall it b0))
        as Hold.
      { intros c Hc. destruct (IHin c Hc) as (r & b0 & Hr & ?). exists r, b0.
        split; [|done]. apply elem_of_app. by left. }
      destruct Hcalls as [->|(it & [->| ->])]; rewrite length_app; simpl;
        (split; [lia|]); intros c [Hc|Hc]%elem_of_app; try (by apply Hold);
        exists row, b; (split; [done|]); (split; [done|]).
      * apply elem_of_cons in Hc as [->|Hc]; [by left|by apply elem_of_nil in Hc].
      * apply elem_of_cons in Hc as [->|Hc]; [by left|].
        apply elem_of_cons in Hc as [->|Hc]; [|by apply elem_of_nil in Hc].
        right. exists it. by left.
      * apply elem_of_cons in Hc as [->|Hc]; [by left|].
        apply elem_of_cons in Hc as [->|Hc]; [|by apply elem_of_nil in Hc].
        right. exists it. by right.
Qed.

Lemma loop_requests_are_per_sample_witness :
  ∃ row b,
    row ∈ [Examples.aabn; Examples.aabm] ∧
    get_bounding_box (geo Examples.one_scene_world)
      (latitude row) (longitude row) 1000 = Return b ∧
    (SearchCall
       {| min_long := (-12151 # 100) - 1000 / 111000;
          min_lat := (365597 # 10000) - 1000 / 111000;
          max_long := (-12151 # 100) + 1000 / 111000;
          max_lat := (365597 # 10000) + 1000 / 111000 |}%Q (736813, 736828)
       = SearchCall b (date row - 15, date row) ∨
     ∃ it,
       SearchCall
         {| min_long := (-12151 # 100) - 1000 / 111000;
            min_lat := (365597 # 10000) - 1000 / 111000;
            max_long := (-12151 # 100) + 1000 / 111000;
            max_lat := (365597 # 10000) + 1000 / 111000 |}%Q (736813, 736828)
         = CropSentinelCall it b ∨
       SearchCall
         {| min_long := (-12151 # 100) - 1000 / 111000;
            min_lat := (365597 # 10000) - 1000 / 111000;
            max_long := (-12151 # 100) + 1000 / 111000;
            max_lat := (365597 # 10000) + 1000 / 111000 |}%Q (736813, 736828)
         = CropLandsatCall it b).
Proof.
  destruct (loop_requests_are_per_sample Examples.one_scene_world ∅ None
              [Examples.aabn; Examples.aabm]) as [_ Hin].
  apply Hin. right. right. left.
Defined.

Lemma length_eqb_0_elem_of (items : list item) c :
  c ∈ items → (length items =? 0)%nat = false.
Proof. intros Hc. destruct items; [by apply elem_of_nil in Hc|done]. Qed.

(** X10. A sample without a file, whose search returns a scene that contains
    the sample point, is served by one search and one crop: the scene
    cropped is the one [select_best_image] returns for this sample, read
    with the Sentinel reader when its platform name contains "sentinel" and
    with the Landsat reader otherwise, over the sample's own box. When that
    crop is not black it is saved under the sample's name and recorded in
    [paths_dict], and the sample is not reported as failed. *)
Theorem sample_with_scene_is_cropped `{SortValues} (W : world) st row b
    (items : list item) c :
  store st !! image_pth row = None →
  get_bounding_box (geo W) (latitude row) (longitude row) 1000 = Return b →
  catalog_search W b (date row - 15, date row) = Return items →
  c ∈ items →
  contains_sample_point (latitude row) (longitude row) c = true →
  ∃ best,
    select_best_image items (date row) (latitude row) (longitude row)
      = Return (Selected best (platform best) (datetime best)) ∧
    loop_vars (process_row W st row)
      = Some (Selected best (platform best) (datetime best)) ∧
    calls (process_row W st row)
      = calls st ++ [SearchCall b (date row - 15, date row);
                     if is_sentinel (platform best)
                     then CropSentinelCall best b else CropLandsatCall best b] ∧
    ∀ im,
      (if is_sentinel (platform best)
       then crop_sentinel_image W best b else crop_landsat_image W best b)
        = Return im →
      pixel_sum im ≠ 0%N →
      store (process_row W st row) = <[image_pth row := im]> (store st) ∧
      paths_dict (process_row W st row)
        = <[uid row := image_pth row]> (paths_dict st) ∧
      errored_ids (process_row W st row) = errored_ids st.
Proof.
  intros Hst Hbox Hsearch Hc Hcc.
  destruct (select_best_image_cases items (date row) (latitude row) (longitude row))
    as [[Hnone _]|(best & Hsel & _)].
  { intros ->. by apply elem_of_nil in Hc. }
  { specialize (Hnone c Hc). congruence. }
  exists best. split; [done|].
  pose proof (length_eqb_0_elem_of items c Hc) as Hlen.
  unfold process_row. rewrite Hst. unfold_M. unfold get_date_range.
  rewrite Hbox. simpl. rewrite Hsearch. simpl. rewrite Hlen, Hsel. simpl.
  destruct (is_sentinel (platform best)); simpl.
  - destruct (crop_sentinel_image W best b) as [im0|e0]; simpl.
    + destruct (pixel_sum im0 =? 0)%N eqn:Hsum; simpl;
        (split; [done|]); (split; [by rewrite <- app_assoc|]);
        intros im [= <-] Hnz; [by apply N.eqb_eq in Hsum|done].
    + split; [done|]. split; [by rewrite <- app_assoc|]. intros im [=].
  - destruct (crop_landsat_image W best b) as [im0|e0]; simpl.
    + destruct (pixel_sum im0 =? 0)%N eqn:Hsum; simpl;
        (split; [done|]); (split; [by rewrite <- app_assoc|]);
        intros im [= <-] Hnz; [by apply N.eqb_eq in Hsum|done].
    + split; [done|]. split; [by rewrite <- app_assoc|]. intros im [=].
Qed.

Lemma sample_with_scene_is_cropped_witness :
  ∃ best,
    select_best_image [Examples.sentinel_0820] (date Examples.aabn)
        (latitude Examples.aabn) (longitude Examples.aabn)
      = Return (Selected best (platform best) (datetime best)) ∧
    loop_vars (process_row Examples.one_scene_world Examples.empty_state Examples.aabn)
      = Some (Selected best (platform best) (datetime best)) ∧
    calls (process_row Examples.one_scene_world Examples.empty_state Examples.aabn)
      = calls Examples.empty_state ++
        [SearchCall
           {| min_long := (-12151 # 100) - 1000 / 111000;
              min_lat := (365597 # 10000) - 1000 / 111000;
              max_long := (-12151 # 100) + 1000 / 111000;
              max_lat := (365597 # 10000) + 1000 / 111000 |}%Q
           (date Examples.aabn - 15, date Examples.aabn);
         if is_sentinel (platform best)
         then CropSentinelCall best
                {| min_long := (-12151 # 100) - 1000 / 111000;
                   min_lat := (365597 # 10000) - 1000 / 111000;
                   max_long := (-12151 # 100) + 1000 / 111000;
                   max_lat := (365597 # 10000) + 1000 / 111000 |}%Q
         else CropLandsatCall best
                {| min_long := (-12151 # 100) - 1000 / 111000;
                   min_lat := (365597 # 10000) - 1000 / 111000;
                   max_long := (-12151 # 100) + 1000 / 111000;
                   max_lat := (365597 # 10000) + 1000 / 111000 |}%Q] ∧
    ∀ im,
      (if is_sentinel (platform best)
       then crop_sentinel_image Examples.one_scene_world best
              {| min_long := (-12151 # 100) - 1000 / 111000;
                 min_lat := (365597 # 10000) - 1000 / 111000;
                 max_long := (-12151 # 100) + 1000 / 111000;
                 max_lat := (365597 # 10000) + 1000 / 111000 |}%Q
       else crop_landsat_image Examples.one_scene_world best
              {| min_long := (-12151 # 100) - 1000 / 111000;
                 min_lat := (365597 # 10000) - 1000 / 111000;
                 max_long := (-12151 # 100) + 1000 / 111000;
                 max_lat := (365597 # 10000) + 1000 / 111000 |}%Q)
        = Return im →
      pixel_sum im ≠ 0%N →
      store (process_row Examples.one_scene_world Examples.empty_state Examples.aabn)
        = <[image_pth Examples.aabn := im]> (store Examples.empty_state) ∧
      paths_dict (process_row Examples.one_scene_world Examples.empty_state Examples.aabn)
        = <[uid Examples.aabn := image_pth Examples.aabn]>
            (paths_dict Examples.empty_state) ∧
      errored_ids (process_row Examples.one_scene_world Examples.empty_state Examples.aabn)
        = errored_ids Examples.empty_state.
Proof.
  apply (sample_with_scene_is_cropped Examples.one_scene_world Examples.empty_state
           Examples.aabn _ [Examples.sentinel_0820] Examples.sentinel_0820).
  - reflexivity.
  - reflexivity.
  - reflexivity.
  - left.
  - reflexivity.
Defined.

(** X11. A sample without a file, whose search returns scenes none of which
    contains the sample point, is reported as failed after the search alone:
    no crop is requested and no file is written. The loop variables are left
    bound to the empty result. *)
Theorem sample_without_containing_scene_fails `{SortValues} (W : world) st row b
    (items : list item) :
  store st !! image_pth row = None →
  get_bounding_box (geo W) (latitude row) (longitude row) 1000 = Return b →
  catalog_search W b (date row - 15, date row) = Return items →
  items ≠ [] →
  (∀ it, it ∈ items →
     contains_sample_point (latitude row) (longitude row) it = false) →
  errored_ids (process_row W st row) = errored_ids st ++ [uid row] ∧
  store (process_row W st row) = store st ∧
  paths_dict (process_row W st row) = paths_dict st ∧
  calls (process_row W st row)
    = calls st ++ [SearchCall b (date row - 15, date row)] ∧
  loop_vars (process_row W st row) = Some NoSelection.
Proof.
  intros Hst Hbox Hsearch Hne Hnone.
  destruct (select_best_image_cases items (date row) (latitude row) (longitude row) Hne)
    as [[_ Hsel]|(best & _ & Hbest & _)].
  2:{ apply elem_of_candidates in Hbest as (Hin & Hc & _).
      specialize (Hnone best Hin). congruence. }
  assert ((length items =? 0)%nat = false) as Hlen by (by destruct items).
  unfold process_row. rewrite Hst. unfold_M. unfold get_date_range.
  rewrite Hbox. simpl. rewrite Hsearch. simpl. by rewrite Hlen, Hsel.
Qed.

Lemma sample_without_containing_scene_fails_witness :
  errored_ids (process_row
                 {| geo := Examples.flat_geodesy;
                    catalog_search := λ _ _, Return [Examples.sentinel_far];
                    crop_sentinel_image := λ _ _, Return [10; 20; 30]%N;
                    crop_landsat_image := λ _ _, Return [1; 2; 3]%N |}
                 Examples.empty_state Examples.aabn) = ["aabn"] ∧
  loop_vars (process_row
               {| geo := Examples.flat_geodesy;
                  catalog_search := λ _ _, Return [Examples.sentinel_far];
                  crop_sentinel_image := λ _ _, Return [10; 20; 30]%N;
                  crop_landsat_image := λ _ _, Return [1; 2; 3]%N |}
               Examples.empty_state Examples.aabn) = Some NoSelection.
Proof.
  destruct (sample_without_containing_scene_fails
              {| geo := Examples.flat_geodesy;
                 catalog_search := λ _ _, Return [Examples.sentinel_far];
                 crop_sentinel_image := λ _ _, Return [10; 20; 30]%N;
                 crop_landsat_image := λ _ _, Return [1; 2; 3]%N |}
              Examples.empty_state Examples.aabn
              {| min_long := (-12151 # 100) - 1000 / 111000;
                 min_lat := (365597 # 10000) - 1000 / 111000;
                 max_long := (-12151 # 100) + 1000 / 111000;
                 max_lat := (365597 # 10000) + 1000 / 111000 |}%Q
              [Examples.sentinel_far]) as (He & _ & _ & _ & Hv).
  - reflexivity.
  - reflexivity.
  - reflexivity.
  - discriminate.
  - intros it Hit.
    apply elem_of_cons in Hit as [->|Hit]; [|by apply elem_of_nil in Hit].
    reflexivity.
  - split; [exact He|exact Hv].
Defined.

(** X12. When the bounding box cannot be computed, or the catalog request
    raises, the sample is reported as failed: no file is written, no crop is
    requested, and the loop variables keep the scene they were bound to. If
    the bounding box fails, no request at all is sent. *)
Theorem sample_fails_before_selection `{SortValues} (W : world) st row :
  store st !! image_pth row = None →
  (raises (get_bounding_box (geo W) (latitude row) (longitude row) 1000) ∨
   ∃ b, get_bounding_box (geo W) (latitude row) (longitude row) 1000 = Return b ∧
        raises (catalog_search W b (date row - 15, date row))) →
  errored_ids (process_row W st row) = errored_ids st ++ [uid row] ∧
  store (process_row W st row) = store st ∧
  paths_dict (process_row W st row) = paths_dict st ∧
  loop_vars (process_row W st row) = loop_vars st ∧
  calls (process_row W st row)
    = calls st ++
      match get_bounding_box (geo W) (latitude row) (longitude row) 1000 with
      | Return b => [SearchCall b (date row - 15, date row)]
      | Raise _ => []
      end.
Proof.
  intros Hst Hfail.
  unfold process_row. rewrite Hst. unfold_M. unfold get_date_range.
  destruct Hfail as [[e He]|(b & Hbox & [e He])].
  - rewrite He. simpl. by rewrite app_nil_r.
  - rewrite Hbox. simpl. by rewrite He.
Qed.

Lemma sample_fails_before_selection_witness :
  errored_ids (process_row Examples.down_world Examples.empty_state Examples.aabn)
    = ["aabn"] ∧
  loop_vars (process_row Examples.down_world Examples.empty_state Examples.aabn)
    = None.
Proof.
  destruct (sample_fails_before_selection Examples.down_world
              Examples.empty_state Examples.aabn) as (He & _ & _ & Hv & _).
  - reflexivity.
  - right. eexists. split; [reflexivity|]. by exists (LibraryError "APIError").
  - split; [exact He|exact Hv].
Defined.

(** X13. A sample without a file, whose search returns no scene at all, is
    reported as failed whenever the loop variables hold no scene, that is,
    when they are unbound or bound to the empty result of an earlier sample:
    nothing is cropped and nothing is written. *)
Theorem empty_search_fails_without_bound_scene `{SortValues} (W : world) st row b :
  store st !! image_pth row = None →
  get_bounding_box (geo W) (latitude row) (longitude row) 1000 = Return b →
  catalog_search W b (date row - 15, date row) = Return [] →
  (∀ best_item item_platform item_date,
     loop_vars st ≠ Some (Selected best_item item_platform item_date)) →
  errored_ids (process_row W st row) = errored_ids st ++ [uid row] ∧
  store (process_row W st row) = store st ∧
  paths_dict (process_row W st row) = paths_dict st ∧
  loop_vars (process_row W st row) = loop_vars st ∧
  calls (process_row W st row)
    = calls st ++ [SearchCall b (date row - 15, date row)].
Proof.
  intros Hst Hbox Hsearch Hvars.
  unfold process_row. rewrite Hst. unfold_M. unfold get_date_range.
  rewrite Hbox. simpl. rewrite Hsearch. simpl.
  destruct (loop_vars st) as [[|bi p d]|] eqn:Hv; try done.
  by destruct (Hvars bi p d).
Qed.

Lemma empty_search_fails_without_bound_scene_witness :
  errored_ids (process_row Examples.one_scene_world
                 (set_loop_vars (Some NoSelection) Examples.empty_state)
                 Examples.aabm) = ["aabm"] ∧
  store (process_row Examples.one_scene_world
           (set_loop_vars (Some NoSelection) Examples.empty_state)
           Examples.aabm) = ∅.
Proof.
  destruct (empty_search_fails_without_bound_scene Examples.one_scene_world
              (set_loop_vars (Some NoSelection) Examples.empty_state)
              Examples.aabm
              {| min_long := (-12151 # 100) - 1000 / 111000;
                 min_lat := (365597 # 10000) - 1000 / 111000;
                 max_long := (-12151 # 100) + 1000 / 111000;
                 max_lat := (365597 # 10000) + 1000 / 111000 |}%Q)
    as (He & Hs & _).
  - reflexivity.
  - reflexivity.
  - reflexivity.
  - intros bi p d. discriminate.
  - split; [exact He|exact Hs].
Defined.

(** ** More on the removal of black images *)

(* The directory left by the removal pass. *)
Lemma scrub_result (images : gmap string raster) :
  ∃ images',
    scrub images
      = Return (length (filter (λ i, is_black images i) (listdir images)), images') ∧
    remove_files (filter (λ i, is_black images i) (listdir images)) images
      = Return images' ∧
    ∀ k, images' !! k =
           if decide (k ∈ filter (λ i, is_black images i) (listdir images))
           then None else images !! k.
Proof.
  destruct (remove_files_spec (filter (λ i, is_black images i) (listdir images)) images)
    as (images' & Hrem & Hlook & _).
  { apply NoDup_filter, NoDup_listdir. }
  { intros i [_ Hi]%list_elem_of_filter. by apply elem_of_listdir. }
  exists images'. split_and!; try done.
  unfold scrub. rewrite black_scan_listed by (intros i; apply elem_of_listdir).
  simpl. by rewrite Hrem.
Qed.

(** X14. The scan and removal cells cannot be run again on the listing and
    the list of black images of the first pass: when the first pass removed
    a file, scanning the old listing raises FileNotFoundError, and so does
    removing the old list of black images. *)
Theorem rerun_on_old_listing_raises (images : gmap string raster) i im :
  images !! i = Some im →
  pixel_sum im = 0%N →
  ∃ removed images',
    scrub images = Return (removed, images') ∧
    black_scan images' (listdir images) [] = Raise FileNotFoundError ∧
    remove_files (filter (λ i, is_black images i) (listdir images)) images'
      = Raise FileNotFoundError.
Proof.
  intros Him Hsum.
  destruct (scrub_result images) as (images' & Hscrub & _ & Hlook).
  assert (i ∈ filter (λ i, is_black images i) (listdir images)) as Hi.
  { apply list_elem_of_filter. split.
    - unfold is_black. rewrite Him. by apply Is_true_true, N.eqb_eq.
    - apply elem_of_listdir. by exists im. }
  eexists _, images'. split_and!; [exact Hscrub| |].
  - apply (black_scan_stale images' (listdir images) [] i).
    + apply elem_of_listdir. by exists im.
    + rewrite Hlook. by rewrite decide_True.
  - destruct (filter (λ i, is_black images i) (listdir images)) as [|j rest] eqn:Hf;
      [by apply elem_of_nil in Hi|].
    simpl. rewrite Hlook, decide_True; [done|left].
Qed.

Lemma rerun_on_old_listing_raises_witness :
  ∃ removed images',
    scrub {["aabn.png" := [0; 0; 0]%N]} = Return (removed, images') ∧
    black_scan images' (listdir {["aabn.png" := [0; 0; 0]%N]}) []
      = Raise FileNotFoundError ∧
    remove_files (filter (λ i, is_black {["aabn.png" := [0; 0; 0]%N]} i)
                    (listdir {["aabn.png" := [0; 0; 0]%N]})) images'
      = Raise FileNotFoundError.
Proof.
  apply (rerun_on_old_listing_raises {["aabn.png" := [0; 0; 0]%N]}
           "aabn.png" [0; 0; 0]%N).
  - apply lookup_singleton_eq.
  - reflexivity.
Defined.

(** ** The listing of the saved images *)

Lemma list_remove_return x (l imgs : list string) :
  list_remove x l = Return imgs ↔
  ∃ l1 l2, l = l1 ++ x :: l2 ∧ (x ∉ l1) ∧ imgs = l1 ++ l2.
Proof.
  revert imgs. induction l as [|y l IH]; intros imgs; simpl.
  - split; [done|]. intros (l1 & l2 & Hl & _). by destruct l1.
  - destruct (String.eqb y x) eqn:Hyx.
    + apply String.eqb_eq in Hyx as ->. split.
      * intros [= <-]. exists [], l. split_and!; try done. apply not_elem_of_nil.
      * intros (l1 & l2 & Hl & Hnin & ->). destruct l1 as [|z l1].
        -- simpl in Hl. by simplify_eq.
        -- simpl in Hl. simplify_eq. exfalso. apply Hnin. left.
    + apply String.eqb_neq in Hyx.
      destruct (list_remove x l) as [l''|e] eqn:Hrem; simpl.
      * split.
        -- intros [= <-]. destruct (proj1 (IH l'') eq_refl) as (l1 & l2 & -> & Hnin & ->).
           exists (y :: l1), l2. split_and!; try done.
           intros [?|?]%elem_of_cons; [congruence|done].
        -- intros (l1 & l2 & Hl & Hnin & ->). destruct l1 as [|z l1].
           ++ simpl in Hl. simplify_eq.
           ++ simpl in Hl. simplify_eq. f_equal. f_equal.
              assert (Return l'' = Return (l1 ++ l2)) as Heq.
              { apply IH. exists l1, l2. split_and!; try done.
                intros Hin. apply Hnin. by right. }
              by simplify_eq.
      * split; [done|].
        intros (l1 & l2 & Hl & Hnin & ->). destruct l1 as [|z l1].
        -- simpl in Hl. simplify_eq.
        -- simpl in Hl. simplify_eq.
           assert (Raise e = Return (l1 ++ l2)) as Heq; [|done].
           apply IH. exists l1, l2. split_and!; try done.
           intros Hin. apply Hnin. by right.
Qed.

Lemma list_remove_raises x (l : list string) :
  raises (list_remove x l) ↔ x ∉ l.
Proof.
  induction l as [|y l IH]; simpl.
  - split; [intros _; apply not_elem_of_nil|intros _; by eexists].
  - destruct (String.eqb y x) eqn:Hyx.
    + apply String.eqb_eq in Hyx as ->. split.
      * by intros [e He].
      * intros Hnin. exfalso. apply Hnin. left.
    + apply String.eqb_neq in Hyx. rewrite not_elem_of_cons, <- IH.
      destruct (list_remove x l) as [l''|e]; simpl.
      * split; [by intros [e He]|]. by intros [_ [e He]].
      * split; [intros _; split; [congruence|by exists e]|intros _; by exists e].
Qed.

(** X15. The listing cell raises ValueError exactly when the directory has
    no '.DS_Store' entry. Otherwise it returns the entries without the first
    '.DS_Store', in the order of the directory; as the entries of a
    directory are distinct, '.DS_Store' is not among them. *)
Theorem saved_images_needs_ds_store (entries : list string) :
  (raises (saved_images entries) ↔ ".DS_Store" ∉ entries) ∧
  (∀ imgs, saved_images entries = Return imgs →
     (∃ l1 l2, entries = l1 ++ ".DS_Store" :: l2 ∧ imgs = l1 ++ l2) ∧
     entries ≡ₚ ".DS_Store" :: imgs ∧
     (NoDup entries → ".DS_Store" ∉ imgs)) ∧
  (".DS_Store" ∉ entries →
   saved_images entries = Raise (LibraryError "ValueError")).
Proof.
  unfold saved_images. split_and!.
  - apply list_remove_raises.
  - intros imgs Hret.
    apply list_remove_return in Hret as (l1 & l2 & -> & Hnin & ->).
    split_and!.
    + by exists l1, l2.
    + by rewrite <- Permutation_middle.
    + intros Hnd. apply NoDup_app in Hnd as (_ & _ & Hnd2).
      apply NoDup_cons in Hnd2 as [Hn2 _].
      intros [?|?]%elem_of_app; done.
  - intros Hnin. induction entries as [|y l IH]; [done|]. simpl.
    apply not_elem_of_cons in Hnin as [Hne Hnin].
    destruct (String.eqb y ".DS_Store") eqn:Hy.
    + apply String.eqb_eq in Hy. congruence.
    + by rewrite (IH Hnin).
Qed.

Lemma saved_images_needs_ds_store_witness :
  saved_images ["aabn.png"; "aabm.png"] = Raise (LibraryError "ValueError") ∧
  ((∃ l1 l2, ["aabn.png"; ".DS_Store"; "aabm.png"] = l1 ++ ".DS_Store" :: l2 ∧
             ["aabn.png"; "aabm.png"] = l1 ++ l2) ∧
   ["aabn.png"; ".DS_Store"; "aabm.png"] ≡ₚ ".DS_Store" :: ["aabn.png"; "aabm.png"] ∧
   (NoDup ["aabn.png"; ".DS_Store"; "aabm.png"] →
    ".DS_Store" ∉ ["aabn.png"; "aabm.png"])).
Proof.
  split.
  - destruct (saved_images_needs_ds_store ["aabn.png"; "aabm.png"]) as (_ & _ & Hr).
    apply Hr.
    intros Hin. apply elem_of_cons in Hin as [Hin|Hin]; [discriminate|].
    apply elem_of_cons in Hin as [Hin|Hin]; [discriminate|].
    by apply elem_of_nil in Hin.
  - destruct (saved_images_needs_ds_store ["aabn.png"; ".DS_Store"; "aabm.png"])
      as (_ & Hret & _).
    apply Hret. reflexivity.
Defined.

Lemma prefix_cons a p b s :
  String.prefix (String a p) (String b s)
    = if ascii_dec a b then String.prefix p s else false.
Proof. reflexivity. Qed.

Lemma prefix_nil s : String.prefix "" s = true.
Proof. by destruct s. Qed.

(* An occurrence of ".png" cannot start inside a name and end inside the
   extension added to it. *)
Lemma prefix_png_app c (u : string) :
  String.prefix ".png" (String c u) = false →
  String.prefix ".png" (String c u +:+ ".png") = false.
Proof.
  assert (∀ a s t, String a s +:+ t = String a (s +:+ t)) as Happ by done.
  assert (∀ t, "" +:+ t = t) as Hnil by done.
  destruct u as [|c2 [|c3 [|c4 u]]]; rewrite ?Happ, ?Hnil;
    rewrite ?prefix_cons, ?prefix_nil; intros Hp;
    repeat (match goal with
            | |- context [ascii_dec ?a ?b] => destruct (ascii_dec a b)
            end; simplify_eq; try done; rewrite ?prefix_cons, ?prefix_nil in *).
Qed.

Lemma replace_png_app (u : string) :
  contains ".png" u = false →
  replace ".png" "" (u +:+ ".png") = u.
Proof.
  unfold replace. induction u as [|c u IH]; intros Hc; [done|].
  simpl in Hc. apply orb_false_iff in Hc as [Hp Hc].
  change (String c u +:+ ".png") with (String c (u +:+ ".png")).
  pose proof (prefix_png_app c u Hp) as Hp'.
  change (String c u +:+ ".png") with (String c (u +:+ ".png")) in Hp'.
  cbn [replace_from]. rewrite Hp'. by rewrite IH.
Qed.

(** X16. The uid read back from the name of a saved image is the uid of the
    sample it was saved for, provided ".png" does not occur in the uid:
    removing ".png" from [uid.png] gives [uid] back, for one file and for a
    whole listing. *)
Theorem saved_uid_round_trip (rows : list sample) :
  (∀ row, row ∈ rows → contains ".png" (uid row) = false) →
  (∀ row, row ∈ rows → replace ".png" "" (image_pth row) = uid row) ∧
  saved_uids (image_pth <$> rows) = uid <$> rows.
Proof.
  intros Hok.
  assert (∀ row, row ∈ rows → replace ".png" "" (image_pth row) = uid row) as Hone.
  { intros row Hin. unfold image_pth. by apply replace_png_app, Hok. }
  split; [done|].
  unfold saved_uids. rewrite <- list_fmap_compose.
  apply list_fmap_ext. intros i row Hi. simpl.
  apply Hone. by apply list_elem_of_lookup_2 in Hi.
Qed.

Lemma saved_uid_round_trip_witness :
  (∀ row, row ∈ [Examples.aabn; Examples.aabm] →
     replace ".png" "" (image_pth row) = uid row) ∧
  saved_uids (image_pth <$> [Examples.aabn; Examples.aabm])
    = uid <$> [Examples.aabn; Examples.aabm].
Proof.
  apply saved_uid_round_trip.
  intros row Hin.
  apply elem_of_cons in Hin as [->|Hin];
    [|apply elem_of_cons in Hin as [->|Hin]; [|by apply elem_of_nil in Hin]];
    reflexivity.
Defined.

(* A uid that contains ".png" is not read back. *)
Example saved_uid_lost :
  replace ".png" "" ("a.png" +:+ ".png") = "a".
Proof. reflexivity. Qed.

(** ** Checkpointing and early stopping *)

Lemma Qltb_false (x y : Q) : Qltb x y = false ↔ (y <= x)%Q.
Proof.
  split.
  - intros Hf. apply Qnot_lt_le. intros Hlt. apply Qltb_lt in Hlt. congruence.
  - intros Hle. destruct (Qltb x y) eqn:Hb; [|done].
    apply Qltb_lt in Hb. by apply Qle_not_lt in Hle.
Qed.

Lemma float_gt_irrefl a : float_gt a a = false.
Proof. destruct a; try done. simpl. apply Qltb_false, Qle_refl. Qed.

Lemma float_gt_asym a b : float_gt a b = true → float_gt b a = false.
Proof.
  destruct a, b; try done. simpl. intros Hlt%Qltb_lt.
  by apply Qltb_false, Qlt_le_weak.
Qed.

(* Without nan, "not greater" is an order. *)
Lemma float_gt_false_trans a b c :
  a ≠ NaN → b ≠ NaN → c ≠ NaN →
  float_gt a b = false → float_gt b c = false → float_gt a c = false.
Proof.
  destruct a, b, c; try done. simpl.
  rewrite !Qltb_false. intros _ _ _ H1 H2. by apply Qle_trans with q0.
Qed.

(* A nan loss is never "greater": it is taken for an improvement, and
   replaces [best_loss] and the checkpoint. *)
Lemma epoch_end_nan patience epoch t :
  best_loss (epoch_end patience epoch NaN t) = Some NaN ∧
  checkpoint (epoch_end patience epoch NaN t) = Some epoch ∧
  stopped (epoch_end patience epoch NaN t) = false.
Proof. unfold epoch_end. by destruct (best_loss t). Qed.

Lemma epoch_end_inv patience (all : list pyfloat) t avg_val_loss :
  all !! epochs_run t = Some avg_val_loss →
  stopped t = false →
  trainer_inv patience all t →
  trainer_inv patience all (epoch_end patience (epochs_run t) avg_val_loss t) ∧
  epochs_run (epoch_end patience (epochs_run t) avg_val_loss t) = S (epochs_run t).
Proof.
  intros Hl Hrun [Hlen Hinv].
  pose proof (lookup_lt_Some _ _ _ Hl) as Hlt.
  assert (∀ j l, all !! j = Some l → NaN ∉ all → l ≠ NaN) as Hfin.
  { intros j l Hj Hnan ->. apply Hnan. by apply list_elem_of_lookup_2 in Hj. }
  unfold epoch_end, trainer_inv.
  destruct (best_loss t) as [b|] eqn:Hb, (checkpoint t) as [e|] eqn:He;
    try done.
  - destruct Hinv as (Hbe & Helt & Hmin & Hlater & Hcnt & Hpat).
    rewrite Hrun in Hpat.
    destruct (float_gt avg_val_loss b) eqn:Hcmp; simpl.
    + split; [|done]. split; [lia|].
      split_and!; try done; try lia.
      * intros Hnan j l Hj Hjl. destruct (decide (j = epochs_run t)) as [->|Hne].
        -- rewrite Hl in Hjl. simplify_eq. by apply float_gt_asym.
        -- apply (Hmin Hnan j); [lia|done].
      * intros j l Hj Hjl. destruct (decide (j = epochs_run t)) as [->|Hne].
        -- rewrite Hl in Hjl. by simplify_eq.
        -- apply (Hlater j); [lia|done].
      * destruct (patience <=? counter t + 1) eqn:Hp;
          [apply Z.leb_le in Hp|apply Z.leb_gt in Hp]; lia.
    + split; [|done]. split; [lia|].
      split_and!; try done; try lia; try (left; lia).
      intros Hnan j l Hj Hjl. destruct (decide (j = epochs_run t)) as [->|Hne].
      * rewrite Hl in Hjl. simplify_eq. apply float_gt_irrefl.
      * apply float_gt_false_trans with b; try done.
        -- by apply (Hfin (epochs_run t)).
        -- by apply (Hfin e).
        -- by apply (Hfin j).
        -- apply (Hmin Hnan j); [lia|done].
  - destruct Hinv as (Hz & Hcnt & _). simpl. split; [|done]. split; [lia|].
    split_and!; try done; try lia; try (left; lia).
    intros _ j l Hj Hjl. assert (j = epochs_run t) as -> by lia.
    rewrite Hl in Hjl. simplify_eq. apply float_gt_irrefl.
Qed.

Lemma training_loop_inv patience (rest done : list pyfloat) t :
  epochs_run t = length done →
  stopped t = false →
  trainer_inv patience (done ++ rest) t →
  trainer_inv patience (done ++ rest)
    (training_loop patience (length done) rest t) ∧
  (stopped (training_loop patience (length done) rest t) = false →
   epochs_run (training_loop patience (length done) rest t)
     = length (done ++ rest)).
Proof.
  revert done t. induction rest as [|l rest IH]; intros done t Hn Hrun Hinv.
  - simpl. split; [done|]. intros _. by rewrite app_nil_r.
  - simpl. rewrite <- Hn.
    destruct (epoch_end_inv patience (done ++ l :: rest) t l) as [Hinv' Hn'];
      try done.
    { rewrite Hn. apply list_lookup_middle. done. }
    destruct (stopped (epoch_end patience (epochs_run t) l t)) eqn:Hstop.
    + split; [done|]. by rewrite Hstop.
    + specialize (IH (done ++ [l]) (epoch_end patience (epochs_run t) l t)).
      rewrite <- app_assoc in IH. simpl in IH.
      rewrite length_app in IH. simpl in IH.
      replace (length done + 1)%nat with (S (epochs_run t)) in IH by lia.
      apply IH; try done.
Qed.

Lemma train_inv patience (losses : list pyfloat) :
  trainer_inv patience losses (train patience losses) ∧
  (stopped (train patience losses) = false →
   epochs_run (train patience losses) = length losses).
Proof.
  unfold train.
  apply (training_loop_inv patience losses []); try done.
  split; [simpl; lia|done].
Qed.

(** X17. After training over at least one epoch, and provided no validation
    loss is nan, [best_loss] is the lowest validation loss of the epochs that
    were run, and [checkpoint.pt] holds the weights of the last epoch that
    reached it: it is greater than the loss of no epoch run, and every epoch
    run after the checkpointed one has a greater loss. *)
Theorem checkpoint_is_best_epoch patience (losses : list pyfloat) :
  losses ≠ [] →
  NaN ∉ losses →
  ∃ e b,
    checkpoint (train patience losses) = Some e ∧
    best_loss (train patience losses) = Some b ∧
    losses !! e = Some b ∧
    (e < epochs_run (train patience losses) ≤ length losses)%nat ∧
    (∀ j l, (j < epochs_run (train patience losses))%nat →
            losses !! j = Some l → float_gt b l = false) ∧
    (∀ j l, (e < j < epochs_run (train patience losses))%nat →
            losses !! j = Some l → float_gt l b = true).
Proof.
  intros Hne Hnan.
  destruct (train_inv patience losses) as [[Hlen Hinv] Hfull].
  destruct (best_loss (train patience losses)) as [b|] eqn:Hb,
           (checkpoint (train patience losses)) as [e|] eqn:He; try done.
  - destruct Hinv as (Hbe & Helt & Hmin & Hlater & _).
    exists e, b. split_and!; try done. by apply Hmin.
  - destruct Hinv as (Hz & _ & Hs). specialize (Hfull Hs).
    rewrite Hz in Hfull. by destruct losses.
Qed.

Lemma checkpoint_is_best_epoch_witness :
  ∃ e b,
    checkpoint (train 5 TrainingExamples.printed_losses) = Some e ∧
    best_loss (train 5 TrainingExamples.printed_losses) = Some b ∧
    TrainingExamples.printed_losses !! e = Some b ∧
    (e < epochs_run (train 5 TrainingExamples.printed_losses)
       ≤ length TrainingExamples.printed_losses)%nat ∧
    (∀ j l, (j < epochs_run (train 5 TrainingExamples.printed_losses))%nat →
            TrainingExamples.printed_losses !! j = Some l → float_gt b l = false) ∧
    (∀ j l, (e < j < epochs_run (train 5 TrainingExamples.printed_losses))%nat →
            TrainingExamples.printed_losses !! j = Some l → float_gt l b = true).
Proof.
  apply checkpoint_is_best_epoch.
  - discriminate.
  - intros Hin. repeat (apply elem_of_cons in Hin as [Hin|Hin]; [discriminate|]).
    by apply elem_of_nil in Hin.
Defined.

(* With a nan loss the checkpoint is not the best epoch: the losses 1.0, nan,
   5.0 end with [best_loss] 5.0 and the weights of the third epoch. *)
Example checkpoint_after_nan :
  best_loss (train 5 [Finite 1; NaN; Finite 5]) = Some (Finite 5) ∧
  checkpoint (train 5 [Finite 1; NaN; Finite 5]) = Some 2%nat.
Proof. split; reflexivity. Qed.

(** X18. The loop is left by [break] exactly [max 1 patience] epochs after
    the checkpointed epoch; when it is not left by [break] it runs every
    epoch, and then fewer than [patience] epochs, or none, have passed since
    the checkpoint. *)
Theorem early_stopping_patience patience (losses : list pyfloat) e :
  checkpoint (train patience losses) = Some e →
  (stopped (train patience losses) = true →
   Z.of_nat (epochs_run (train patience losses))
     = Z.of_nat e + 1 + Z.max 1 patience) ∧
  (stopped (train patience losses) = false →
   epochs_run (train patience losses) = length losses ∧
   (Z.of_nat (length losses) = Z.of_nat e + 1 ∨
    Z.of_nat (length losses) - (Z.of_nat e + 1) < patience)).
Proof.
  intros He.
  destruct (train_inv patience losses) as [[Hlen Hinv] Hfull].
  rewrite He in Hinv.
  destruct (best_loss (train patience losses)) as [b|]; [|done].
  destruct Hinv as (_ & Helt & _ & _ & Hcnt & Hpat).
  split.
  - intros Hs. rewrite Hs in Hpat. lia.
  - intros Hs. rewrite Hs in Hpat. specialize (Hfull Hs).
    split; [done|]. rewrite <- Hfull. lia.
Qed.

Lemma early_stopping_patience_witness :
  Z.of_nat (epochs_run (train 2 TrainingExamples.four_losses))
    = Z.of_nat 0 + 1 + Z.max 1 2.
Proof.
  destruct (early_stopping_patience 2 TrainingExamples.four_losses 0%nat)
    as [Hstop _].
  - reflexivity.
  - apply Hstop. reflexivity.
Defined.

(** ** Filling the submission *)

Lemma set_severity_lookup u v (submission : list submission_row) i r :
  submission !! i = Some r →
  set_severity u v submission !! i
    = Some (if String.eqb (row_uid r) u
            then {| row_uid := row_uid r; region := region r; severity := v |}
            else r).
Proof. intros Hi. unfold set_severity. by rewrite list_lookup_fmap, Hi. Qed.

Lemma fill_submission_cons p predictions (submission : list submission_row) :
  fill_submission (p :: predictions) submission
    = fill_submission predictions (set_severity p.1 p.2 submission).
Proof. done. Qed.

Lemma fill_submission_app pre post (submission : list submission_row) :
  fill_submission (pre ++ post) submission
    = fill_submission post (fill_submission pre submission).
Proof. unfold fill_submission. by rewrite foldl_app. Qed.

(* A row keeps its uid and its region. *)
Lemma fill_submission_lookup predictions (submission : list submission_row) i r :
  submission !! i = Some r →
  ∃ s, fill_submission predictions submission !! i
         = Some {| row_uid := row_uid r; region := region r; severity := s |}.
Proof.
  revert submission r. induction predictions as [|p predictions IH];
    intros submission r Hi.
  - exists (severity r). by destruct r.
  - rewrite fill_submission_cons.
    pose proof (set_severity_lookup p.1 p.2 submission i r Hi) as Hset.
    destruct (String.eqb (row_uid r) p.1).
    + by destruct (IH _ _ Hset) as [s Hs]; exists s.
    + by apply IH.
Qed.

(* A row for which nothing is predicted is left as it is. *)
Lemma fill_submission_untouched predictions (submission : list submission_row) i r :
  submission !! i = Some r →
  row_uid r ∉ predictions.*1 →
  fill_submission predictions submission !! i = Some r.
Proof.
  revert submission. induction predictions as [|p predictions IH];
    intros submission Hi Hnin; [done|].
  rewrite fill_submission_cons. rewrite fmap_cons in Hnin.
  apply not_elem_of_cons in Hnin as [Hne Hnin].
  apply IH; [|done].
  rewrite (set_severity_lookup _ _ _ _ r Hi).
  apply String.eqb_neq in Hne. by rewrite Hne.
Qed.

(** X19. Filling the submission changes the severity column only: the rows,
    their order, their uids and their regions are those of the submission
    format. A row whose uid is not among the predicted samples keeps the
    severity of the submission format; a row whose uid is predicted gets the
    last prediction made for that uid. *)
Theorem fill_submission_changes_predicted_rows (predictions : list (string * Z))
    (submission_format : list submission_row) :
  row_uid <$> fill_submission predictions submission_format
    = row_uid <$> submission_format ∧
  region <$> fill_submission predictions submission_format
    = region <$> submission_format ∧
  (∀ i r, submission_format !! i = Some r →
     row_uid r ∉ predictions.*1 →
     fill_submission predictions submission_format !! i = Some r) ∧
  (∀ i r pre v post,
     submission_format !! i = Some r →
     predictions = pre ++ (row_uid r, v) :: post →
     row_uid r ∉ post.*1 →
     fill_submission predictions submission_format !! i
       = Some {| row_uid := row_uid r; region := region r; severity := v |}).
Proof.
  assert (∀ i, fill_submission predictions submission_format !! i = None ↔
               submission_format !! i = None) as Hnone.
  { intros i. revert submission_format.
    induction predictions as [|p predictions IH]; intros fmt; [done|].
    rewrite fill_submission_cons, IH. unfold set_severity.
    rewrite list_lookup_fmap. by destruct (fmt !! i). }
  split_and!.
  - apply list_eq. intros i. rewrite !list_lookup_fmap.
    destruct (submission_format !! i) as [r|] eqn:Hi.
    + destruct (fill_submission_lookup predictions _ i r Hi) as [s ->]. done.
    + apply Hnone in Hi. by rewrite Hi.
  - apply list_eq. intros i. rewrite !list_lookup_fmap.
    destruct (submission_format !! i) as [r|] eqn:Hi.
    + destruct (fill_submission_lookup predictions _ i r Hi) as [s ->]. done.
    + apply Hnone in Hi. by rewrite Hi.
  - intros i r Hi Hnin. by apply fill_submission_untouched.
  - intros i r pre v post Hi -> Hnin.
    rewrite fill_submission_app, fill_submission_cons. simpl.
    destruct (fill_submission_lookup pre _ i r Hi) as [s Hs].
    pose proof (set_severity_lookup (row_uid r) v _ i _ Hs) as Hset.
    simpl in Hset. rewrite String.eqb_refl in Hset.
    by apply fill_submission_untouched.
Qed.

Lemma fill_submission_changes_predicted_rows_witness :
  fill_submission [("aabn", 3); ("aajw", 0); ("aabn", 2)]
      TrainingExamples.submission_format !! 1%nat
    = Some {| row_uid := "aair"; region := "west"; severity := 1 |} ∧
  fill_submission [("aabn", 3); ("aajw", 0); ("aabn", 2)]
      TrainingExamples.submission_format !! 0%nat
    = Some {| row_uid := "aabn"; region := "west"; severity := 2 |}.
Proof.
  destruct (fill_submission_changes_predicted_rows
              [("aabn", 3); ("aajw", 0); ("aabn", 2)]
              TrainingExamples.submission_format) as (_ & _ & Hkeep & Hset).
  split.
  - apply Hkeep; [reflexivity|].
    intros Hin. repeat (apply elem_of_cons in Hin as [Hin|Hin]; [discriminate|]).
    by apply elem_of_nil in Hin.
  - apply (Hset 0%nat {| row_uid := "aabn"; region := "west"; severity := 1 |}
             [("aabn", 3); ("aajw", 0)] 2 []); [reflexivity|reflexivity|].
    apply not_elem_of_nil.
Defined.
